(** * Finance Tracker: the projection chart and the transaction ledger

    A shallow embedding of [src/App.tsx]: the growth projection
    [projectGrowth], the scale functions, pointer handlers and lookups of
    the [AreaChart] component, and the [addTransaction] /
    [deleteTransaction] commands of [App].

    Numbers.  A JavaScript [number] is a binary64 float.  Two models of it
    are used.

    - [JsNum.num]: an exact rational ([Qc], canonical fractions, so equality
      is Leibniz equality) or one of the special values [Infinity],
      [-Infinity], [NaN].  Division by zero, [NaN] propagation, truthiness
      ([a || b]) and [Math.max()] of no argument behave as in the language;
      finite arithmetic is exact and the sign of zero is not tracked.  It
      carries the statements that rounding cannot disturb: the shape of the
      data, integer results, and non-strict bounds.

    - [B64.num]: the binary64 numbers themselves ([SpecFloat], precision 53,
      round to nearest even, overflow to an infinity).  The projection and
      the two ledger commands are written once more over an arbitrary
      arithmetic ([Generic]) and run in binary64 wherever a statement
      depends on rounding. *)

From Stdlib Require Import ZArith QArith Qcanon Qround Lqa Lia SpecFloat.
From Stdlib Require Import String Ascii Bool List.
Import ListNotations.

Close Scope Qc_scope.
Close Scope Q_scope.

(** ** JavaScript numbers *)

Module JsNum.

Inductive num : Type :=
| Fin (q : Qc)
| PInf
| NInf
| NaN.

Definition of_Z (z : Z) : num := Fin (Q2Qc (inject_Z z)).
Definition of_nat (n : nat) : num := of_Z (Z.of_nat n).

(** Decimal literals of the source, e.g. [1.05] is [lit 105 100]. *)
Definition lit (n : Z) (d : positive) : num := Fin (Q2Qc (n # d)).

Definition Qc_ltb (a b : Qc) : bool :=
match (a ?= b)%Qc with Lt => true | _ => false end.

Definition Qc_is_zero (a : Qc) : bool := Qc_eq_bool a 0%Qc.

(** [a + b] *)
Definition add (a b : num) : num :=
match a, b with
| NaN, _ | _, NaN => NaN
| Fin x, Fin y => Fin (x + y)%Qc
| PInf, NInf | NInf, PInf => NaN
| PInf, _ | _, PInf => PInf
| NInf, _ | _, NInf => NInf
end.

(** [- a] *)
Definition neg (a : num) : num :=
match a with
| Fin x => Fin (- x)%Qc
| PInf => NInf
| NInf => PInf
| NaN => NaN
end.

(** [a - b] *)
Definition sub (a b : num) : num := add a (neg b).

(** The infinity whose sign is that of [s * t], for [s] an infinity's sign
  ([true] is positive) and [t] a finite factor; [NaN] when [t] is zero. *)
Definition inf_times (s : bool) (t : Qc) : num :=
if Qc_is_zero t then NaN
else if Bool.eqb s (Qc_ltb 0%Qc t) then PInf else NInf.

(** [a * b] *)
Definition mul (a b : num) : num :=
match a, b with
| NaN, _ | _, NaN => NaN
| Fin x, Fin y => Fin (x * y)%Qc
| PInf, Fin y => inf_times true y
| NInf, Fin y => inf_times false y
| Fin x, PInf => inf_times true x
| Fin x, NInf => inf_times false x
| PInf, PInf | NInf, NInf => PInf
| PInf, NInf | NInf, PInf => NInf
end.

(** [a / b]; a zero divisor is [+0]. *)
Definition div (a b : num) : num :=
match a, b with
| NaN, _ | _, NaN => NaN
| Fin x, Fin y =>
    if Qc_is_zero y then
      if Qc_is_zero x then NaN
      else if Qc_ltb 0%Qc x then PInf else NInf
    else Fin (x / y)%Qc
| Fin _, (PInf | NInf) => Fin 0%Qc
| PInf, Fin y => if Qc_ltb y 0%Qc then NInf else PInf
| NInf, Fin y => if Qc_ltb y 0%Qc then PInf else NInf
| (PInf | NInf), (PInf | NInf) => NaN
end.

(** [a < b] *)
Definition ltb (a b : num) : bool :=
match a, b with
| NaN, _ | _, NaN => false
| Fin x, Fin y => Qc_ltb x y
| NInf, (Fin _ | PInf) => true
| Fin _, PInf => true
| _, _ => false
end.

(** [a > b] *)
Definition gtb (a b : num) : bool := ltb b a.

(** [a === b] on numbers: [NaN] is not equal to itself. *)
Definition strict_eq (a b : num) : bool :=
match a, b with
| Fin x, Fin y => Qc_eq_bool x y
| PInf, PInf | NInf, NInf => true
| _, _ => false
end.

(** Truthiness of a number: [0] and [NaN] are falsy. *)
Definition truthy (a : num) : bool :=
match a with
| Fin x => negb (Qc_is_zero x)
| PInf | NInf => true
| NaN => false
end.

(** [a || b] *)
Definition or_else (a b : num) : num := if truthy a then a else b.

(** [Math.max(a, b)] and [Math.min(a, b)] *)
Definition max2 (a b : num) : num :=
match a, b with
| NaN, _ | _, NaN => NaN
| _, _ => if ltb a b then b else a
end.

Definition min2 (a b : num) : num :=
match a, b with
| NaN, _ | _, NaN => NaN
| _, _ => if ltb b a then b else a
end.

(** [Math.max(...l)]: [-Infinity] when [l] is empty. *)
Definition Math_max (l : list num) : num := fold_left max2 l NInf.

(** [Math.round(a)]: the nearest integer, ties towards [+Infinity]. *)
Definition Math_round (a : num) : num :=
match a with
| Fin x => of_Z (Qfloor (x + (1 # 2)))
| _ => a
end.

(** [l[i]] for an array [l] and a number [i]: [undefined] ([None]) unless
  [i] is an integer with [0 <= i < l.length]. *)
Definition index {A : Type} (l : list A) (i : num) : option A :=
match i with
| Fin x =>
    if (Pos.eqb (Qden x) 1 && Z.leb 0 (Qnum x))%bool
    then nth_error l (Z.to_nat (Qnum x))
    else None
| _ => None
end.

Definition is_finite (a : num) : bool :=
match a with Fin _ => true | _ => false end.

End JsNum.

Import JsNum.

Declare Scope num_scope.
Delimit Scope num_scope with num.
Bind Scope num_scope with num.
Infix "+" := add : num_scope.
Infix "-" := sub : num_scope.
Infix "*" := mul : num_scope.
Infix "/" := div : num_scope.
Infix "||" := or_else : num_scope.

Definition isNaN (a : num) : bool :=
  match a with NaN => true | _ => false end.

(** ** Exceptions *)

Inductive exn : Type := TypeError.

Inductive result (A : Type) : Type :=
| Ok (a : A)
| Throw (e : exn).
Arguments Ok {A} a.
Arguments Throw {A} e.

Definition bind {A B : Type} (r : result A) (k : A -> result B) : result B :=
  match r with
  | Ok a => k a
  | Throw e => Throw e
  end.

Notation "x <- r ;; k" := (bind r (fun x => k))
  (at level 61, r at next level, right associativity).

(** [l.map(f)] for a callback that may throw: the first exception, in array
    order, aborts the whole map. *)
Fixpoint mapM {A B : Type} (f : A -> result B) (l : list A) : result (list B) :=
  match l with
  | [] => Ok []
  | a :: l' => b <- f a ;; bs <- mapM f l' ;; Ok (b :: bs)
  end.

(** [o.field] where [o] may be [undefined]: reading a property of
    [undefined] throws a [TypeError]. *)
Definition deref {A : Type} (o : option A) : result A :=
  match o with
  | Some a => Ok a
  | None => Throw TypeError
  end.

(** ** Types of the application *)

Record point : Type := mkPoint { year : Z; value : num }.

Module Series.
Record t : Type := mk { name : string; color : string; points : list point }.
End Series.

Module Transaction.
Record t : Type := mk {
  id : string;
  date : string;
  description : string;
  category : string;
  amount : num;
  accountId : string
}.
End Transaction.

Inductive AccountType : Type := Brokerage | Checking | Savings | Credit.

Module Account.
Record t : Type := mk {
  id : string;
  name : string;
  type : AccountType;
  balance : num
}.
End Account.

(** ** Growth projection *)

Section Projection.

(** [new Date().getFullYear()], the ambient calendar year. *)
Variable currentYear : Z.

(** The body of the [for] loop of [projectGrowth], run [n] more times
    from loop counter [y], running value [v] and the points pushed so
    far. *)
Fixpoint projectGrowth_loop (yearlyAdd rate : num) (n y : nat) (v : num)
    (pts : list point) : list point :=
  match n with
  | O => pts
  | S n' =>
      let v' := if (0 <? y)%nat
                then ((v + yearlyAdd) * (of_Z 1 + rate))%num else v in
      projectGrowth_loop yearlyAdd rate n' (S y) v'
        (pts ++ [mkPoint (currentYear + Z.of_nat y) v'])
  end.

(** [projectGrowth(start, yearlyAdd, years, rate)]; the loop runs for
    [y = 0 .. years]. *)
Definition projectGrowth (start yearlyAdd : num) (years : nat) (rate : num)
  : list point :=
  projectGrowth_loop yearlyAdd rate (S years) 0 start [].

End Projection.


(** The recurrence of the projection, stated on its own: the value at
    period [k]. *)
Fixpoint value_at (start yearlyAdd rate : num) (k : nat) : num :=
  match k with
  | O => start
  | S k' => ((value_at start yearlyAdd rate k' + yearlyAdd) * (of_Z 1 + rate))%num
  end.

Definition point_at (currentYear : Z) (start yearlyAdd rate : num) (k : nat)
  : point :=
  mkPoint (currentYear + Z.of_nat k) (value_at start yearlyAdd rate k).

(** ** The area chart *)

Module AreaChart.

Definition W : num := of_Z 900.
Definition H : num := of_Z 320.
Definition P : num := of_Z 30.

(** [series[0].points.map(p => p.year)]; [series[0]] is [undefined] for an
    empty array and reading [.points] of it throws. *)
Definition years (series : list Series.t) : result (list Z) :=
  s0 <- deref (nth_error series 0) ;; Ok (map year (Series.points s0)).

(** [series.flatMap(s => s.points.map(p => p.value))] *)
Definition all (series : list Series.t) : list num :=
  flat_map (fun s => map value (Series.points s)) series.

Definition min : num := of_Z 0.

(** [Math.max(...all) * 1.05 || 1] *)
Definition max (series : list Series.t) : num :=
  (Math_max (all series) * lit 105 100 || of_Z 1)%num.

(** [x = i => P + (i/(years.length-1))*(W-2*P)], for [N = years.length]. *)
Definition x (N : nat) (i : num) : num :=
  (P + (i / (of_nat N - of_Z 1)) * (W - of_Z 2 * P))%num.

(** [y = v => H-P - (v-min)/(max-min||1)*(H-2*P)] *)
Definition y (max : num) (v : num) : num :=
  (H - P - (v - min) / (max - min || of_Z 1) * (H - of_Z 2 * P))%num.

(** Index of each element next to it, as [Array.prototype.map] passes
    it to its callback. *)
Definition indexed {A : Type} (l : list A) : list (nat * A) :=
  combine (seq 0 (length l)) l.

(** [path(pts)]: the vertices [(x(i), y(p.value))] of the poly-line
    [M x y L x y ...]. *)
Definition path (N : nat) (max : num) (pts : list point) : list (num * num) :=
  map (fun ip => (x N (of_nat (fst ip)), y max (value (snd ip)))) (indexed pts).

(** The bounding rectangle of the mounted [svg] element; only [left] is
    read. *)
Record rect : Type := mkRect { left : Qc }.

(** The pointer event; only [clientX] is read. *)
Record mouse_event : Type := mkEvent { clientX : Qc }.

(** Props and hooks of one mounted chart: the [series] prop, the
    [svgRef] ref ([None] while [svgRef.current] is [null]) and the
    [hoverI] state. *)
Record chart : Type := mkChart {
  series : list Series.t;
  svgRef : option rect;
  hoverI : option num
}.

(** [years.length] for the chart's current series; [0] stands in when
    [series[0]] is [undefined] (the render has thrown before any handler
    can run). *)
Definition N (series : list Series.t) : nat :=
  match nth_error series 0 with
  | Some s0 => length (Series.points s0)
  | None => 0
  end.

Section Handlers.

(** The parent's state and the [onHoverIndexChange] prop, an optional
    callback updating it. *)
Variable Parent : Type.
Variable onHoverIndexChange : option (option num -> Parent -> Parent).

(** [onHoverIndexChange?.(i)] *)
Definition notify (i : option num) (p : Parent) : Parent :=
  match onHoverIndexChange with
  | Some f => f i p
  | None => p
  end.

(** The index computed by [handleMove] from the pointer's offset [mx]
    in the element. *)
Definition hover_index (N : nat) (mx : num) : num :=
  let innerLeft := P in
  let innerRight := (W - P)%num in
  let clamped := max2 innerLeft (min2 innerRight mx) in
  let t := ((clamped - innerLeft) / (innerRight - innerLeft))%num in
  Math_round (t * (of_nat N - of_Z 1))%num.

Definition handleMove (e : mouse_event) (st : chart * Parent)
  : chart * Parent :=
  let (c, p) := st in
  match svgRef c with
  | None => st
  | Some r =>
      let mx := (Fin (clientX e) - Fin (left r))%num in
      let idx := hover_index (N (series c)) mx in
      (mkChart (series c) (svgRef c) (Some idx), notify (Some idx) p)
  end.

Definition handleLeave (st : chart * Parent) : chart * Parent :=
  let (c, p) := st in
  (mkChart (series c) (svgRef c) None, notify None p).

(** A re-render with a new [series] prop: [useState] and [useRef] keep
    their values across renders of a mounted component, and the
    component has no effect that runs on a prop change. *)
Definition rerender (s : list Series.t) (st : chart * Parent)
  : chart * Parent :=
  let (c, p) := st in
  (mkChart s (svgRef c) (hoverI c), p).

Inductive event : Type :=
| PointerMove (e : mouse_event)
| PointerLeave
| SeriesChange (s : list Series.t).

Definition step (st : chart * Parent) (ev : event) : chart * Parent :=
  match ev with
  | PointerMove e => handleMove e st
  | PointerLeave => handleLeave st
  | SeriesChange s => rerender s st
  end.

Definition run (st : chart * Parent) (evs : list event) : chart * Parent :=
  fold_left step evs st.

(** The first render of a chart mounted with [series], once the ref is
    attached: [useState(null)]. *)
Definition mount (s : list Series.t) (r : rect) (p : Parent)
  : chart * Parent :=
  (mkChart s (Some r) None, p).

Definition reachable (st : chart * Parent) : Prop :=
  exists s r p evs, st = run (mount s r p) evs.

End Handlers.

Arguments notify {Parent} onHoverIndexChange i p.
Arguments handleMove {Parent} onHoverIndexChange e st.
Arguments handleLeave {Parent} onHoverIndexChange st.
Arguments rerender {Parent} s st.
Arguments step {Parent} onHoverIndexChange st ev.
Arguments run {Parent} onHoverIndexChange st evs.
Arguments mount {Parent} s r p.
Arguments reachable {Parent} onHoverIndexChange st.

(** [hoverI ?? (years.length - 1)] *)
Definition legendIndex (hoverI : option num) (N : nat) : num :=
  match hoverI with
  | Some i => i
  | None => (of_nat N - of_Z 1)%num
  end.

(** What one render draws.  [money] and the string syntax of paths are
    display formatting: the view keeps the numbers. *)
Record view : Type := mkView {
  grid : list num;
  areas : list (list (num * num));
  lines : list (list (num * num));
  hover : option (num * list (num * num));
  xlabels : list (num * Z);
  tooltip : option (num * option Z * list (string * num));
  legend : list (string * num)
}.

(** [s.points[i].value], throwing when [s.points[i]] is [undefined]. *)
Definition value_of (s : Series.t) (i : num) : result num :=
  p <- deref (index (Series.points s) i) ;; Ok (value p).

(** The body of the component, in evaluation order. *)
Definition render (series : list Series.t) (hoverI : option num)
  : result view :=
  yrs <- years series ;;
  let N := length yrs in
  let max := max series in
  let legendIndex := legendIndex hoverI N in
  let grid :=
    map (fun i => (P + of_nat i * ((H - of_Z 2 * P) / of_Z 5))%num) (seq 0 6) in
  let areas :=
    map (fun s =>
           path N max (Series.points s)
           ++ [(x N ((of_nat (length (Series.points s)) - of_Z 1)%num), (H - P)%num);
               (x N (of_Z 0), (H - P)%num)]) series in
  let lines := map (fun s => path N max (Series.points s)) series in
  hover <-
    match hoverI with
    | None => Ok None
    | Some h =>
        dots <- mapM (fun s => v <- value_of s h ;; Ok (x N h, y max v)) series ;;
        Ok (Some (x N h, dots))
    end ;;
  let xlabels := map (fun iy => (x N (of_nat (fst iy)), snd iy)) (indexed yrs) in
  tooltip <-
    match hoverI with
    | None => Ok None
    | Some h =>
        let leftPct :=
          ((P + (h / (of_nat N - of_Z 1)) * (W - of_Z 2 * P)) / W * of_Z 100)%num in
        rows <- mapM (fun s => v <- value_of s h ;; Ok (Series.name s, v)) series ;;
        Ok (Some (leftPct, index yrs h, rows))
    end ;;
  legend <-
    mapM (fun s => v <- value_of s legendIndex ;; Ok (Series.name s, v)) series ;;
  Ok (mkView grid areas lines hover xlabels tooltip legend).


End AreaChart.

(** ** The application: accounts and transactions *)

Module App.

(** [s.trim()] on ASCII text: a [string] is a sequence of bytes, and of the
    characters below 128 [String.prototype.trim] strips exactly these six.
    (It also strips the white space of Unicode beyond ASCII, such as
    U+00A0; statements that depend on what [trim] strips are made for ASCII
    text, see [ascii_text].) *)
Definition is_space (c : ascii) : bool :=
  match nat_of_ascii c with
  | 9 | 10 | 11 | 12 | 13 | 32 => true
  | _ => false
  end.

Fixpoint trim_start (s : string) : string :=
  match s with
  | EmptyString => EmptyString
  | String c s' => if is_space c then trim_start s' else s
  end.

Fixpoint trim_end (s : string) : string :=
  match s with
  | EmptyString => EmptyString
  | String c s' =>
      match trim_end s' with
      | EmptyString => if is_space c then EmptyString else String c EmptyString
      | r => String c r
      end
  end.

Definition trim (s : string) : string := trim_end (trim_start s).

(** A string is falsy exactly when it is empty. *)
Definition str_truthy (s : string) : bool :=
  match s with EmptyString => false | _ => true end.

(** The form of the "Add Transaction" dialog. *)
Record NewTx : Type := mkNewTx {
  desc : string;
  nt_category : string;
  nt_amount : string;
  nt_accountId : string
}.

Record state : Type := mkState {
  accounts : list Account.t;
  transactions : list Transaction.t;
  showTxModal : bool;
  newTx : NewTx
}.

Definition set_balance (a : Account.t) (b : num) : Account.t :=
  Account.mk (Account.id a) (Account.name a) (Account.type a) b.

Section Commands.

(** The conversion [Number(s)] of the language, from the text of the
    amount field to a number ([NaN] for text that is not numeric). *)
Variable Number : string -> num.

(** [addTransaction()], with the values the environment supplies:
    [uuid] is the result of [crypto.randomUUID()] and [today] that of
    [todayISO()]. *)
Definition addTransaction (uuid today : string) (st : state) : state :=
  let amt := Number (nt_amount (newTx st)) in
  if (negb (str_truthy (trim (desc (newTx st)))) || isNaN amt)%bool then st
  else
    let tx :=
      Transaction.mk uuid today
        (trim (desc (newTx st)))
        (if str_truthy (trim (nt_category (newTx st)))
         then trim (nt_category (newTx st)) else "General"%string)
        amt
        (nt_accountId (newTx st)) in
    mkState
      (map (fun a =>
              if String.eqb (Account.id a) (nt_accountId (newTx st))
              then set_balance a (Account.balance a + amt)%num
              else a) (accounts st))
      (tx :: transactions st)
      false
      (mkNewTx "" "" "" "acc1").

(** [deleteTransaction(id)]: the updater of [setTransactions] runs once
    on the current list and queues the update of the accounts. *)
Definition deleteTransaction (id : string) (st : state) : state :=
  match find (fun t => String.eqb (Transaction.id t) id) (transactions st) with
  | None => st
  | Some tx =>
      mkState
        (map (fun a =>
                if String.eqb (Account.id a) (Transaction.accountId tx)
                then set_balance a (Account.balance a - Transaction.amount tx)%num
                else a) (accounts st))
        (filter (fun t => negb (String.eqb (Transaction.id t) id))
           (transactions st))
        (showTxModal st)
        (newTx st)
  end.

End Commands.

(** [accounts.filter(a => a.type === "Brokerage").reduce((s,a) => s + a.balance, 0)] *)
Definition investedBalance (accs : list Account.t) : num :=
  fold_left (fun s a => (s + Account.balance a)%num)
    (filter (fun a => match Account.type a with Brokerage => true | _ => false end)
       accs)
    (of_Z 0).

Definition years : nat := 10.

(** The setter of [hoverYearIndex], the state [App] passes to the chart as
    [onHoverIndexChange]. *)
Definition setHoverYearIndex (i : option num) (_ : option num) : option num := i.

(** The three scenarios handed to the chart of the portfolio dialog. *)
Definition portfolio_series (currentYear : Z) (accs : list Account.t)
  : list Series.t :=
  [ Series.mk "Conservative" "#7c7cff"
      (projectGrowth currentYear (investedBalance accs) (of_Z 0) years (lit 4 100));
    Series.mk "Moderate" "#53c1a9"
      (projectGrowth currentYear (investedBalance accs) (of_Z 0) years (lit 6 100));
    Series.mk "Aggressive" "#d17bff"
      (projectGrowth currentYear (investedBalance accs) (of_Z 0) years (lit 9 100)) ].

(** [hoverYearIndex ?? years] and
    [Math.min(Math.max(legendI, 0), conservative.length-1)], the index of
    the stat cards under the chart. *)
Definition legendI (hoverYearIndex : option num) : num :=
  match hoverYearIndex with
  | Some i => i
  | None => of_nat years
  end.

Definition lastIdx (hoverYearIndex : option num) (conservative : list point)
  : num :=
  min2 (max2 (legendI hoverYearIndex) (of_Z 0))
       (of_nat (length conservative) - of_Z 1)%num.

(** The initial state of [App]. *)
Definition initial_accounts : list Account.t :=
  [ Account.mk "acc1" "Robinhood" Brokerage (of_Z 10000);
    Account.mk "acc2" "Chase" Checking (of_Z 5000) ].

Definition initial_transactions (today : string) : list Transaction.t :=
  [ Transaction.mk "t1" today "Initial Balance" "Setup" (of_Z 10000) "acc1";
    Transaction.mk "t2" today "Initial Balance" "Setup" (of_Z 5000) "acc2" ].


End App.

(** ** Proof automation *)

(** Goals and hypotheses over [Qc] are moved to [Q], where [lra], [nra]
    and [field] apply. *)
Ltac qc_unfold :=
  unfold Qclt, Qcle, Qcdiv, Qcminus, Qcinv, Qcopp, Qcmult, Qcplus in *;
  cbn [this Q2Qc] in *;
  repeat rewrite Qred_correct in *;
  unfold inject_Z in *.

Ltac qc_arith :=
  intros; try apply Qc_is_canon; qc_unfold; first [ lra | nra | field; lra ].

(** ** The rest of the application: totals, dashboard, sparkline, budgets *)

(** [Math.min(...l)]: [Infinity] when [l] is empty. *)
Definition Math_min (l : list num) : num := fold_left min2 l PInf.

(** [accounts.reduce((s,a) => s + a.balance, 0)], the [totalBalance] of
    [App]. *)
Definition totalBalance (accs : list Account.t) : num :=
  fold_left (fun s a => (s + Account.balance a)%num) accs (of_Z 0).

Module Dashboard.


(** The "Cash" card: [Math.max(0, totalBalance - 10000)]. *)
Definition cash (totalBalance : num) : num :=
  max2 (of_Z 0) (totalBalance - of_Z 10000)%num.




(** The rows of "Recent Transactions": [transactions.slice(0,10)]. *)
Definition recent (txs : list Transaction.t) : list Transaction.t :=
  firstn 10 txs.

End Dashboard.

Module Sparkline.

Definition w : num := of_Z 540.
Definition h : num := of_Z 36.

(** The vertices of the poly-line: for each [v] at index [i],
    [x = (i/(data.length-1))*w] and [y = h - ((v-min)/(max-min||1))*h]. *)
Definition pts (data : list num) : list (num * num) :=
  let max := Math_max data in
  let min := Math_min data in
  map (fun iv =>
         ((of_nat (fst iv) / (of_nat (length data) - of_Z 1) * w)%num,
          (h - ((snd iv - min) / (max - min || of_Z 1)) * h)%num))
      (AreaChart.indexed data).

End Sparkline.

Module Budgets.

Record Budget : Type := mk {
  id : string;
  category : string;
  limit : num;
  spent : num
}.

(** The row of inputs under the table. *)
Record NewRow : Type := mkNewRow {
  nr_category : string;
  nr_limit : string;
  nr_spent : string
}.

Record state : Type := mkState {
  budgets : list Budget;
  newRow : NewRow
}.

(** The [key] argument of [updateField]: ["category" | "limit" | "spent"]. *)
Inductive key : Type := KCategory | KLimit | KSpent.

(** [useState] initial value: three rows with ids ["1"], ["2"], ["3"]. *)
Definition initial_budgets : list Budget :=
  [ mk "1" "Groceries" (of_Z 500) (of_Z 320);
    mk "2" "Dining" (of_Z 200) (of_Z 180);
    mk "3" "Investments" (of_Z 1000) (of_Z 1000) ].

(** [budgets.reduce((s,b) => s + b.limit, 0)] and the same for [spent]. *)
Definition total (bs : list Budget) : num :=
  fold_left (fun s b => (s + limit b)%num) bs (of_Z 0).

Definition used (bs : list Budget) : num :=
  fold_left (fun s b => (s + spent b)%num) bs (of_Z 0).

(** [b.limit>0 ? Math.round((b.spent/b.limit)*100) : 0] *)
Definition pct (b : Budget) : num :=
  if gtb (limit b) (of_Z 0)
  then Math_round (spent b / limit b * of_Z 100)%num
  else of_Z 0.

Definition bar_over (b : Budget) : bool := gtb (pct b) (of_Z 100).

(** Whether the "spent" input is drawn in the warning colour:
    [b.spent>b.limit]. *)
Definition spent_over (b : Budget) : bool := gtb (spent b) (limit b).

Section Commands.

(** The conversion [Number(s)] of the language. *)
Variable Number : string -> num.

(** [updateField(id, key, value)] *)
Definition updateField (i : string) (k : key) (value : string) (st : state)
  : state :=
  mkState
    (map (fun b =>
            if negb (String.eqb (id b) i) then b
            else
              match k with
              | KCategory => mk (id b) value (limit b) (spent b)
              | KLimit =>
                  let num := Number value in
                  if isNaN num then b else mk (id b) (category b) num (spent b)
              | KSpent =>
                  let num := Number value in
                  if isNaN num then b else mk (id b) (category b) (limit b) num
              end)
       (budgets st))
    (newRow st).




End Commands.

End Budgets.

(** ** The ledger as a whole *)



(** ** Event traces of the chart inside [App] *)

(** Pointer events, as opposed to a change of the [series] prop. *)
Definition is_pointer (ev : AreaChart.event) : bool :=
  match ev with
  | AreaChart.SeriesChange _ => false
  | _ => true
  end.


(** A text made of white space only (the empty text included). *)
Fixpoint all_space (s : string) : bool :=
  match s with
  | EmptyString => true
  | String c s' => (App.is_space c && all_space s')%bool
  end.

(** ** Facts about rationals and [num] *)

Lemma Qc_ltb_lt (a b : Qc) : Qc_ltb a b = true <-> (a < b)%Qc.
Proof.
  unfold Qc_ltb. rewrite Qclt_alt.
  destruct (a ?= b)%Qc; split; congruence.
Qed.

Lemma Qc_ltb_ge (a b : Qc) : Qc_ltb a b = false <-> (b <= a)%Qc.
Proof.
  split; intro H.
  - apply Qcnot_lt_le. intro L. apply Qc_ltb_lt in L. congruence.
  - destruct (Qc_ltb a b) eqn:E; [|reflexivity].
    apply Qc_ltb_lt in E. exfalso. exact (Qcle_not_lt _ _ H E).
Qed.

Lemma Qc_is_zero_false (a : Qc) : a <> 0%Qc -> Qc_is_zero a = false.
Proof.
  intro H. unfold Qc_is_zero.
  destruct (Qc_eq_bool a 0%Qc) eqn:E; [|reflexivity].
  apply Qc_eq_bool_correct in E. contradiction.
Qed.

(** Numbers that are strictly equal are the same number. *)
Lemma strict_eq_eq (a b : num) : strict_eq a b = true -> a = b.
Proof.
  destruct a, b; cbn [strict_eq]; try discriminate; try reflexivity.
  intro E. f_equal. now apply Qc_eq_bool_correct.
Qed.

(** ** The projection as a recurrence *)

Section ProjectionFacts.

Variable currentYear : Z.
Variables (start yearlyAdd rate : num).

Lemma projectGrowth_loop_spec (n y : nat) (pts : list point) :
  projectGrowth_loop currentYear yearlyAdd rate n y
    (value_at start yearlyAdd rate (pred y)) pts
  = pts ++ map (point_at currentYear start yearlyAdd rate) (seq y n).
Proof.
  revert y pts. induction n as [|n IH]; intros y pts; cbn [projectGrowth_loop].
  - cbn. now rewrite app_nil_r.
  - assert (E : (if (0 <? y)%nat
                 then ((value_at start yearlyAdd rate (pred y) + yearlyAdd)
                       * (of_Z 1 + rate))%num
                 else value_at start yearlyAdd rate (pred y))
                = value_at start yearlyAdd rate y)
      by (destruct y; reflexivity).
    rewrite E.
    change (value_at start yearlyAdd rate y)
      with (value_at start yearlyAdd rate (pred (S y))) at 1.
    rewrite IH. cbn [seq map]. now rewrite <- app_assoc.
Qed.

Lemma projectGrowth_points (years : nat) :
  projectGrowth currentYear start yearlyAdd years rate
  = map (point_at currentYear start yearlyAdd rate) (seq 0 (S years)).
Proof.
  unfold projectGrowth.
  exact (projectGrowth_loop_spec (S years) 0 []).
Qed.

Lemma projectGrowth_nth (years k : nat) :
  (k <= years)%nat ->
  nth_error (projectGrowth currentYear start yearlyAdd years rate) k
  = Some (point_at currentYear start yearlyAdd rate k).
Proof.
  intro Hk. rewrite projectGrowth_points.
  rewrite nth_error_map, nth_error_seq.
  destruct (Nat.ltb_spec k (S years)); [reflexivity | lia].
Qed.

Lemma projectGrowth_length (years : nat) :
  length (projectGrowth currentYear start yearlyAdd years rate) = S years.
Proof. now rewrite projectGrowth_points, length_map, length_seq. Qed.

(** C1.  For every start value, contribution, rate and horizon
    [years >= 0], [projectGrowth] returns exactly [years + 1] points;
    point 0 carries the start value and the current year; and every
    later point [y] has
    [value_y = (value_(y-1) + yearlyAdd) * (1 + rate)] and
    [year_y = currentYear + y]. *)
Theorem projectGrowth_recurrence (years : nat) :
  let pts := projectGrowth currentYear start yearlyAdd years rate in
  length pts = (years + 1)%nat /\
  nth_error pts 0 = Some (mkPoint currentYear start) /\
  forall y : nat, (1 <= y <= years)%nat ->
    exists p q,
      nth_error pts (y - 1) = Some p /\
      nth_error pts y = Some q /\
      value q = ((value p + yearlyAdd) * (of_Z 1 + rate))%num /\
      year q = (currentYear + Z.of_nat y)%Z.
Proof.
  cbv zeta. split; [|split].
  - rewrite projectGrowth_length. lia.
  - rewrite projectGrowth_nth by lia.
    unfold point_at. cbn [value_at Z.of_nat]. now rewrite Z.add_0_r.
  - intros y [Hy1 Hy2].
    exists (point_at currentYear start yearlyAdd rate (y - 1)),
           (point_at currentYear start yearlyAdd rate y).
    repeat split.
    + apply projectGrowth_nth. lia.
    + apply projectGrowth_nth. lia.
    + destruct y as [|y]; [lia|].
      replace (S y - 1)%nat with y by lia. reflexivity.
Qed.

End ProjectionFacts.

Lemma projectGrowth_recurrence_witness :
  let pts := projectGrowth 2026 (of_Z 1000) (of_Z 0) 10 (lit 5 100) in
  exists p q,
    nth_error pts (3 - 1) = Some p /\
    nth_error pts 3 = Some q /\
    value q = ((value p + of_Z 0) * (of_Z 1 + lit 5 100))%num /\
    year q = (2026 + Z.of_nat 3)%Z.
Proof.
  destruct (projectGrowth_recurrence 2026 (of_Z 1000) (of_Z 0) (lit 5 100) 10)
    as (_ & _ & Hrec).
  apply (Hrec 3%nat). lia.
Defined.

(** ** Growth of the projection *)

Lemma value_at_step (s c r : num) (k : nat) :
  value_at s c r (S k) = ((value_at s c r k + c) * (of_Z 1 + r))%num.
Proof. reflexivity. Qed.





(** ** Integers among the rationals, and rounding *)

Lemma Qred_inject_Z (k : Z) : Qred (inject_Z k) = inject_Z k.
Proof. apply Qred_identity. cbn. apply Z.gcd_1_r. Qed.

Lemma index_of_nat {A : Type} (l : list A) (k : nat) :
  index l (of_nat k) = nth_error l k.
Proof.
  unfold index, of_nat, of_Z. cbn [this Q2Qc].
  rewrite Qred_inject_Z. cbn [inject_Z Qnum Qden Pos.eqb andb].
  destruct (Z.leb_spec 0 (Z.of_nat k)); [|lia].
  now rewrite Nat2Z.id.
Qed.

Lemma Qfloor_half (k : Z) : Qfloor (inject_Z k + (1 # 2)) = k.
Proof.
  unfold Qfloor, inject_Z, Qplus. cbn [Qnum Qden].
  rewrite Pos.mul_1_l, Z.mul_1_l.
  symmetry. apply (Z.div_unique (k * 2 + 1) 2 k 1); lia.
Qed.

Lemma Qfloor_half_bounds (q : Q) (n : Z) :
  (0 <= q)%Q -> (q <= inject_Z n)%Q ->
  (0 <= Qfloor (q + (1 # 2)) <= n)%Z.
Proof.
  intros H0 Hn. split.
  - change 0%Z with (Qfloor (inject_Z 0)).
    apply Qfloor_resp_le. unfold inject_Z. lra.
  - rewrite <- (Qfloor_half n).
    apply Qfloor_resp_le. lra.
Qed.

(** ** Scale functions and the hover index *)

Import AreaChart.

(** The clamp of [handleMove] on a finite offset: a point of the band
    [[P, W-P]], the offset itself when it lies in the band. *)
Lemma clamp_fin (m : Qc) :
  exists c : Qc,
    max2 P (min2 (W - P)%num (Fin m)) = Fin c /\
    (inject_Z 30 <= c)%Q /\ (c <= inject_Z 870)%Q /\
    ((inject_Z 30 <= m)%Q -> (m <= inject_Z 870)%Q -> c = m).
Proof.
  cbn [W P sub add neg of_Z min2 max2 ltb].
  destruct (Qc_ltb m _) eqn:E1; cbn [max2 ltb];
    destruct (Qc_ltb _ _) eqn:E2 in |- *; eexists; (split; [reflexivity|]).
  all: first [apply Qc_ltb_lt in E1 | apply Qc_ltb_ge in E1].
  all: first [apply Qc_ltb_lt in E2 | apply Qc_ltb_ge in E2].
  all: repeat split; qc_arith.
Qed.

Lemma inner_width_nonzero :
  Qc_is_zero (Q2Qc (inject_Z 900) + - Q2Qc (inject_Z 30) + - Q2Qc (inject_Z 30))%Qc
  = false.
Proof. reflexivity. Qed.

(** The hover index of a finite offset, in closed form. *)
Lemma hover_index_fin (n : nat) (m : Qc) :
  exists c : Qc,
    (inject_Z 30 <= c)%Q /\ (c <= inject_Z 870)%Q /\
    ((inject_Z 30 <= m)%Q -> (m <= inject_Z 870)%Q -> c = m) /\
    hover_index n (Fin m)
    = of_Z (Qfloor ((c - 30) / 840 * (inject_Z (Z.of_nat n) - 1) + (1 # 2))).
Proof.
  destruct (clamp_fin m) as (c & Ec & H30 & H870 & Hid).
  exists c. repeat split; try assumption.
  unfold hover_index. rewrite Ec.
  cbn [W P sub add neg of_Z of_nat div].
  rewrite inner_width_nonzero. cbn [mul Math_round]. unfold of_Z.
  do 3 f_equal. apply Qfloor_comp. qc_unfold. field.
Qed.

Lemma scaled_bounds (c a : Q) :
  (30 <= c)%Q -> (c <= 870)%Q -> (1 <= a)%Q ->
  (0 <= (c - 30) / 840 * (a - 1))%Q /\ ((c - 30) / 840 * (a - 1) <= a - 1)%Q.
Proof.
  intros H30 H870 Ha.
  set (t := ((c - 30) / 840)%Q).
  assert (Ht : (0 <= t)%Q /\ (t <= 1)%Q).
  { unfold t. split.
    - apply Qle_shift_div_l; lra.
    - apply Qle_shift_div_r; lra. }
  destruct Ht. split; nra.
Qed.

Lemma hover_index_in_range (n : nat) (m : Qc) :
  (1 <= n)%nat ->
  exists k : nat, (k < n)%nat /\ hover_index n (Fin m) = of_nat k.
Proof.
  intro Hn. destruct (hover_index_fin n m) as (c & H30 & H870 & _ & E).
  rewrite E.
  set (z := Qfloor _).
  assert (Hz : (0 <= z <= Z.of_nat n - 1)%Z).
  { assert (Ha : (1 <= inject_Z (Z.of_nat n))%Q).
    { change 1%Q with (inject_Z 1). rewrite <- Zle_Qle. lia. }
    destruct (scaled_bounds c (inject_Z (Z.of_nat n)) H30 H870 Ha) as [L U].
    apply Qfloor_half_bounds; [exact L|].
    unfold Z.sub. rewrite inject_Z_plus. exact U. }
  exists (Z.to_nat z). split; [lia|].
  unfold of_nat. rewrite Z2Nat.id by lia. reflexivity.
Qed.

Lemma of_nat_pred (n : nat) :
  (1 <= n)%nat -> (of_nat n - of_Z 1)%num = of_nat (n - 1).
Proof.
  intro Hn. unfold of_nat, of_Z. cbn [sub add neg]. f_equal.
  apply Qc_is_canon. qc_unfold.
  replace (Z.of_nat (n - 1)) with (Z.of_nat n + - 1)%Z by lia.
  unfold Qeq, Qplus, Qopp. cbn [Qnum Qden]. lia.
Qed.

Lemma span_nonzero (n : nat) :
  (2 <= n)%nat ->
  Qc_is_zero (Q2Qc (inject_Z (Z.of_nat n)) + - Q2Qc (inject_Z 1))%Qc = false.
Proof.
  intro Hn. apply Qc_is_zero_false. intro E.
  assert (E' : (this (Q2Qc (inject_Z (Z.of_nat n)) + - Q2Qc (inject_Z 1))%Qc
                == this 0%Qc)%Q) by (rewrite E; reflexivity).
  qc_unfold. unfold Qeq, Qplus, Qopp in E'. cbn [Qnum Qden] in E'. lia.
Qed.

(** For at least two points the scale divides by [N - 1 > 0] and is the
    affine map of the spec. *)
Lemma x_fin (n : nat) (i : Qc) :
  (2 <= n)%nat ->
  exists q : Qc,
    x n (Fin i) = Fin q /\
    (q == 30 + i / (inject_Z (Z.of_nat n) - 1) * 840)%Q.
Proof.
  intro Hn. unfold x.
  cbn [W P sub add neg mul of_Z of_nat div].
  rewrite (span_nonzero n Hn). cbn [mul add].
  eexists. split; [reflexivity|].
  assert (Hne : ~ (inject_Z (Z.of_nat n) - 1 == 0)%Q).
  { intro E. unfold Qeq, Qminus, Qplus, Qopp, inject_Z in E.
    cbn [Qnum Qden] in E. lia. }
  qc_unfold. field. exact Hne.
Qed.

(** C5.  Round trip of the hover mapping: for [N > 1] points and every
    index [0 <= k <= N-1], the pointer-move computation (clamp to
    [[P, W-P]], normalise, round [t * (N-1)]) applied to the pixel
    position [x(k)] yields the hover index [k]; a pointer at offset [x(k)]
    of the mounted element makes [handleMove] store [k] and notify the
    parent with [k]. *)
Theorem hover_index_round_trip (n k : nat) :
  (1 < n)%nat -> (0 <= k <= n - 1)%nat ->
  hover_index n (x n (of_nat k)) = of_nat k /\
  forall (Parent : Type) (cb : option (option num -> Parent -> Parent))
         (c : chart) (p : Parent) (r : rect) (e : mouse_event),
    svgRef c = Some r -> N (series c) = n ->
    (Fin (clientX e) - Fin (left r))%num = x n (of_nat k) ->
    handleMove cb e (c, p)
    = (mkChart (series c) (svgRef c) (Some (of_nat k)),
       notify cb (Some (of_nat k)) p).
Proof.
  intros Hn [_ Hk].
  assert (Hrt : hover_index n (x n (of_nat k)) = of_nat k).
  { destruct (x_fin n (Q2Qc (inject_Z (Z.of_nat k))) ltac:(lia)) as (q & Ex & Eq).
    unfold of_nat at 1. unfold of_Z at 1. rewrite Ex.
    assert (Ha : (2 <= inject_Z (Z.of_nat n))%Q).
    { change 2%Q with (inject_Z 2). rewrite <- Zle_Qle. lia. }
    assert (Hk0 : (0 <= inject_Z (Z.of_nat k))%Q).
    { change 0%Q with (inject_Z 0). rewrite <- Zle_Qle. lia. }
    assert (Hk1 : (inject_Z (Z.of_nat k) <= inject_Z (Z.of_nat n) - 1)%Q).
    { change 1%Q with (inject_Z 1). unfold Qminus.
      rewrite <- inject_Z_opp, <- inject_Z_plus, <- Zle_Qle. lia. }
    cbn [this Q2Qc] in Eq. rewrite Qred_correct in Eq.
    set (a := inject_Z (Z.of_nat n)) in *.
    set (b := inject_Z (Z.of_nat k)) in *.
    assert (Hne : ~ (a - 1 == 0)%Q) by lra.
    assert (Hfrac : (0 <= b / (a - 1))%Q /\ (b / (a - 1) <= 1)%Q).
    { split.
      - apply Qle_shift_div_l; lra.
      - apply Qle_shift_div_r; lra. }
    destruct (hover_index_fin n q) as (c & _ & _ & Hid & E).
    rewrite E. fold a.
    assert (Hc : c = q).
    { apply Hid; unfold inject_Z; rewrite Eq; destruct Hfrac; nra. }
    subst c. unfold of_nat, of_Z. do 3 f_equal.
    rewrite <- (Qfloor_half (Z.of_nat k)). apply Qfloor_comp. fold b.
    rewrite Eq. field. exact Hne. }
  split; [exact Hrt|].
  intros Parent cb c p r e Hr HN Hmx.
  unfold handleMove. rewrite Hr, HN, Hmx, Hrt. reflexivity.
Qed.

Lemma hover_index_round_trip_witness :
  hover_index 11 (x 11 (of_nat 3)) = of_nat 3.
Proof. apply (hover_index_round_trip 11 3); lia. Defined.

(** C10.  For every pointer-move on a mounted chart whose first series has
    [N >= 2] points, the hover index set by [handleMove] is an integer in
    [0 .. N-1], so [points[hoverI]] is defined for every series of length
    [N]; without a mounted element the handler changes nothing. *)
Theorem handleMove_index_in_bounds (Parent : Type)
    (cb : option (option num -> Parent -> Parent))
    (c : chart) (p : Parent) (e : mouse_event) :
  (2 <= N (series c))%nat ->
  match svgRef c with
  | None => handleMove cb e (c, p) = (c, p)
  | Some r =>
      exists k : nat,
        (0 <= k <= N (series c) - 1)%nat /\
        hover_index (N (series c)) (Fin (clientX e) - Fin (left r))%num
          = of_nat k /\
        hoverI (fst (handleMove cb e (c, p))) = Some (of_nat k) /\
        snd (handleMove cb e (c, p)) = notify cb (Some (of_nat k)) p /\
        forall s : Series.t,
          length (Series.points s) = N (series c) ->
          exists pt, index (Series.points s) (of_nat k) = Some pt /\
                     value_of s (of_nat k) = Ok (value pt)
  end.
Proof.
  intro Hn. unfold handleMove. destruct (svgRef c) as [r|]; [|reflexivity].
  cbn [sub add neg fst snd hoverI].
  destruct (hover_index_in_range (N (series c)) (clientX e + - left r)%Qc
              ltac:(lia)) as (k & Hk & E).
  exists k. rewrite E. repeat split; try lia.
  intros s Hs. unfold value_of. rewrite index_of_nat.
  destruct (nth_error (Series.points s) k) as [pt|] eqn:Ept.
  - exists pt. split; reflexivity.
  - apply nth_error_None in Ept. lia.
Qed.

Lemma handleMove_index_in_bounds_witness :
  let c := mkChart (App.portfolio_series 2026 App.initial_accounts)
             (Some (mkRect (Q2Qc 0))) None in
  exists k : nat,
    (0 <= k <= N (series c) - 1)%nat /\
    hover_index (N (series c)) (Fin (Q2Qc 450) - Fin (Q2Qc 0))%num = of_nat k /\
    hoverI (fst (handleMove (Some App.setHoverYearIndex) (mkEvent (Q2Qc 450)) (c, None)))
      = Some (of_nat k) /\
    snd (handleMove (Some App.setHoverYearIndex) (mkEvent (Q2Qc 450)) (c, None))
      = notify (Some App.setHoverYearIndex) (Some (of_nat k)) None /\
    forall s : Series.t,
      length (Series.points s) = N (series c) ->
      exists pt, index (Series.points s) (of_nat k) = Some pt /\
                 value_of s (of_nat k) = Ok (value pt).
Proof.
  intro c.
  apply (handleMove_index_in_bounds (option num) (Some App.setHoverYearIndex)
           c None (mkEvent (Q2Qc 450))).
  vm_compute. lia.
Defined.

(** The chart of the portfolio dialog at rest and a pointer at the middle
    of an element 900 pixels wide: index 5 of 0..10. *)
Example hover_index_middle :
  hover_index 11 (Fin (Q2Qc 450)) = of_nat 5.
Proof.
  unfold of_nat, of_Z. 
  destruct (hover_index_fin 11 (Q2Qc 450)) as (c & _ & _ & Hid & E).
  rewrite E, Hid by (unfold inject_Z; cbn; lra). reflexivity.
Qed.

(** C4: the code at a single point.  With [N = 1] the scale divides by
    [years.length - 1 = 0]: [x(0)] is [NaN], not [P], and no [x(i)] is
    finite; from two points on the scale is the affine map of the spec. *)
Theorem x_single_point :
  x 1 (of_Z 0) = NaN /\
  strict_eq (x 1 (of_Z 0)) P = false /\
  (forall i : Qc, is_finite (x 1 (Fin i)) = false) /\
  (forall (n : nat) (i : Qc), (2 <= n)%nat ->
     exists q : Qc,
       x n (Fin i) = Fin q /\
       (q == 30 + i / (inject_Z (Z.of_nat n) - 1) * 840)%Q).
Proof.
  split; [reflexivity|]. split; [reflexivity|]. split.
  - intro i. unfold x. cbn [W P sub add neg mul of_Z of_nat div].
    change (Qc_is_zero (Q2Qc (inject_Z (Z.of_nat 1)) + - Q2Qc (inject_Z 1))%Qc)
      with true. cbv iota.
    destruct (Qc_is_zero i); [reflexivity|].
    destruct (Qc_ltb (Q2Qc 0) i); reflexivity.
  - exact x_fin.
Qed.

Lemma x_single_point_witness :
  exists q : Qc,
    x 11 (Fin (Q2Qc 5)) = Fin q /\
    (q == 30 + Q2Qc 5 / (inject_Z (Z.of_nat 11) - 1) * 840)%Q.
Proof.
  destruct x_single_point as (_ & _ & _ & Hx).
  apply (Hx 11%nat (Q2Qc 5)). lia.
Defined.

(** ** The value scale *)

Lemma fold_max2_fin (l : list num) (a : Qc) :
  Forall (fun v => is_finite v = true) l ->
  exists M : Qc,
    fold_left max2 l (Fin a) = Fin M /\
    (M = a \/ In (Fin M) l) /\
    (a <= M)%Qc /\
    Forall (fun v => ltb (Fin M) v = false) l.
Proof.
  intro Hfin. revert a. induction Hfin as [|v l Hv _ IH]; intro a.
  - exists a. repeat split; auto using Qcle_refl.
  - destruct v as [b| | |]; try discriminate. cbn [fold_left max2 ltb].
    destruct (Qc_ltb a b) eqn:E.
    + apply Qc_ltb_lt in E.
      destruct (IH b) as (M & EM & HM & Hle & Hall).
      exists M. split; [exact EM|]. split; [|split].
      * right. destruct HM as [->|HM]; [now left | now right].
      * apply Qclt_le_weak. eapply Qclt_le_trans; eassumption.
      * constructor; [|exact Hall]. cbn [ltb]. now apply Qc_ltb_ge.
    + apply Qc_ltb_ge in E.
      destruct (IH a) as (M & EM & HM & Hle & Hall).
      exists M. split; [exact EM|]. split; [|split].
      * destruct HM as [->|HM]; [now left | right; now right].
      * exact Hle.
      * constructor; [|exact Hall]. cbn [ltb]. apply Qc_ltb_ge.
        eapply Qcle_trans; eassumption.
Qed.

(** [Math.max] of a non-empty list of finite numbers is its greatest
    element. *)
Lemma Math_max_fin (l : list num) :
  l <> [] -> Forall (fun v => is_finite v = true) l ->
  exists M : Qc,
    Math_max l = Fin M /\ In (Fin M) l /\
    Forall (fun v => ltb (Fin M) v = false) l.
Proof.
  intros Hne Hfin. destruct l as [|v l]; [congruence|].
  inversion Hfin as [|? ? Hv Hl]; subst.
  destruct v as [b| | |]; try discriminate.
  unfold Math_max. cbn [fold_left max2 ltb].
  destruct (fold_max2_fin l b Hl) as (M & EM & HM & Hle & Hall).
  exists M. split; [exact EM|]. split.
  - destruct HM as [->|HM]; [now left | now right].
  - constructor; [|exact Hall]. cbn [ltb]. now apply Qc_ltb_ge.
Qed.

Lemma Qc_is_zero_true (a : Qc) : Qc_is_zero a = true -> a = 0%Qc.
Proof. apply Qc_eq_bool_correct. Qed.

Lemma Qc_is_zero_scaled (M : Qc) :
  Qc_is_zero (M * Q2Qc (105 # 100))%Qc = Qc_is_zero M.
Proof.
  destruct (Qc_is_zero M) eqn:E.
  - apply Qc_is_zero_true in E. subst M. reflexivity.
  - apply Qc_is_zero_false. intro Z.
    apply Qcmult_integral in Z. destruct Z as [Z|Z].
    + subst M. discriminate.
    + discriminate.
Qed.

(** For a finite, non-zero maximum the value scale is the affine map of
    the spec. *)
Lemma y_fin (m v : Qc) :
  m <> 0%Qc ->
  exists q : Qc,
    y (Fin m) (Fin v) = Fin q /\ (q == 290 - v / m * 260)%Q.
Proof.
  intro Hm.
  assert (Hz : Qc_is_zero (m + - Q2Qc (inject_Z 0))%Qc = false).
  { apply Qc_is_zero_false. intro E. apply Hm.
    rewrite <- E. apply Qc_is_canon. qc_unfold. ring. }
  unfold y. cbn [AreaChart.min H P sub add neg of_Z].
  unfold or_else. cbn [truthy]. rewrite Hz. cbn [negb div].
  rewrite Hz. cbn [mul add neg].
  eexists. split; [reflexivity|].
  assert (Hm' : ~ (m == 0)%Q).
  { intro E. apply Hm. now apply Qc_is_canon. }
  qc_unfold. field. exact Hm'.
Qed.

Lemma max_fin (series : list Series.t) :
  all series <> [] ->
  Forall (fun v => is_finite v = true) (all series) ->
  exists M : Qc,
    Math_max (all series) = Fin M /\ In (Fin M) (all series) /\
    Forall (fun v => ltb (Fin M) v = false) (all series) /\
    AreaChart.max series
    = (if Qc_is_zero M then of_Z 1 else (Fin M * lit 105 100)%num).
Proof.
  intros Hne Hfin.
  destruct (Math_max_fin (all series) Hne Hfin) as (M & EM & Hin & Hall).
  exists M. repeat split; try assumption.
  unfold AreaChart.max. rewrite EM. cbn [mul lit].
  unfold or_else. cbn [truthy]. rewrite Qc_is_zero_scaled.
  destruct (Qc_is_zero M); reflexivity.
Qed.



(** ** Rendering and exceptions *)

Lemma result_cases {A : Type} (r : result A) :
  (exists a, r = Ok a) \/ r = Throw TypeError.
Proof. destruct r as [a|[]]; [left; now exists a | now right]. Qed.

Lemma mapM_Ok {A B : Type} (f : A -> result B) (l : list A) :
  Forall (fun a => exists b, f a = Ok b) l ->
  exists bs, mapM f l = Ok bs.
Proof.
  induction 1 as [|a l [b Hb] _ [bs IH]]; cbn [mapM].
  - now exists [].
  - rewrite Hb, IH. cbn [bind]. now exists (b :: bs).
Qed.

Lemma mapM_Ok_inv {A B : Type} (f : A -> result B) (l : list A) (bs : list B) :
  mapM f l = Ok bs -> Forall2 (fun a b => f a = Ok b) l bs.
Proof.
  revert bs. induction l as [|a l IH]; intros bs E; cbn [mapM] in E.
  - injection E as <-. constructor.
  - destruct (f a) as [b|e] eqn:Eb; cbn [bind] in E; [|discriminate].
    destruct (mapM f l) as [bs'|e] eqn:El; cbn [bind] in E; [|discriminate].
    injection E as <-. constructor; [exact Eb | now apply IH].
Qed.

Lemma mapM_Throw {A B : Type} (f : A -> result B) (l : list A) :
  Exists (fun a => f a = Throw TypeError) l ->
  mapM f l = Throw TypeError.
Proof.
  induction 1 as [a l Ha | a l _ IH]; cbn [mapM].
  - now rewrite Ha.
  - rewrite IH. destruct (f a) as [b|[]]; reflexivity.
Qed.

Lemma value_of_Ok (s : Series.t) (i v : num) :
  value_of s i = Ok v <->
  exists pt, index (Series.points s) i = Some pt /\ v = value pt.
Proof.
  unfold value_of. destruct (index (Series.points s) i) as [pt|]; cbn.
  - split.
    + intros [= <-]. now exists pt.
    + intros (pt' & [= <-] & ->). reflexivity.
  - split; [discriminate | intros (pt & E & _); discriminate].
Qed.

Lemma value_of_Throw (s : Series.t) (i : num) :
  index (Series.points s) i = None -> value_of s i = Throw TypeError.
Proof. unfold value_of. now intros ->. Qed.

Lemma years_length (series : list Series.t) (yrs : list Z) :
  years series = Ok yrs -> length yrs = N series.
Proof.
  unfold years, N. destruct (nth_error series 0) as [s0|]; cbn; [|discriminate].
  intros [= <-]. apply length_map.
Qed.

Lemma years_Ok (series : list Series.t) :
  series <> [] -> exists yrs, years series = Ok yrs.
Proof.
  destruct series as [|s0 rest]; [congruence|]. intros _.
  eexists. reflexivity.
Qed.

(** Every lookup of one render uses the index [hoverI ?? (N - 1)]: the
    render returns exactly when the list is not empty and that index is
    defined in every series. *)
Lemma render_Ok_iff (series : list Series.t) (h : option num) :
  (exists v, render series h = Ok v) <->
  series <> [] /\
  Forall (fun s => index (Series.points s) (legendIndex h (N series)) <> None)
    series.
Proof.
  split.
  - intros [v E]. unfold render in E.
    destruct series as [|s0 rest]; [discriminate|].
    split; [discriminate|].
    set (ss := s0 :: rest) in *.
    destruct (years ss) as [yrs|] eqn:Ey; cbn [bind] in E; [|discriminate].
    rewrite (years_length ss yrs Ey) in E.
    destruct (match h with None => Ok None | Some _ => _ end) as [hv|];
      cbn [bind] in E; [|discriminate].
    destruct (match h with None => Ok None | Some _ => _ end) as [tv|] in E;
      cbn [bind] in E; [|discriminate].
    destruct (mapM _ ss) as [lg|] eqn:El in E; cbn [bind] in E; [|discriminate].
    apply mapM_Ok_inv in El.
    set (n := N ss) in *. clearbody n. clearbody ss. clear - El.
    induction El as [|s row l l' Hrow _ IH]; constructor; [|exact IH].
    destruct (value_of s _) as [w|] eqn:Ew; cbn [bind] in Hrow; [|discriminate].
    apply value_of_Ok in Ew. destruct Ew as (pt & Ept & _). congruence.
  - intros [Hne Hall]. unfold render.
    destruct (years_Ok series Hne) as [yrs Ey]. rewrite Ey. cbn [bind].
    rewrite (years_length series yrs Ey).
    assert (Hrows : forall (g : Series.t -> num -> num * num),
               exists rs,
                 mapM (fun s => v <- value_of s (legendIndex h (N series)) ;;
                                Ok (g s v)) series = Ok rs).
    { intro g. apply mapM_Ok. eapply Forall_impl; [|exact Hall].
      intros s Hs. cbn beta in Hs.
      destruct (index (Series.points s) _) as [pt|] eqn:Ept; [|congruence].
      unfold value_of. rewrite Ept. cbn [deref bind]. eexists. reflexivity. }
    assert (Hrows' : forall (g : Series.t -> num -> string * num),
               exists rs,
                 mapM (fun s => v <- value_of s (legendIndex h (N series)) ;;
                                Ok (g s v)) series = Ok rs).
    { intro g. apply mapM_Ok. eapply Forall_impl; [|exact Hall].
      intros s Hs. cbn beta in Hs.
      destruct (index (Series.points s) _) as [pt|] eqn:Ept; [|congruence].
      unfold value_of. rewrite Ept. cbn [deref bind]. eexists. reflexivity. }
    destruct h as [i|]; cbn [legendIndex] in *.
    + destruct (Hrows (fun _ v => (x (N series) i, y (AreaChart.max series) v)))
        as [dots ->].
      destruct (Hrows' (fun s v => (Series.name s, v))) as [rows ->].
      cbn [bind]. eexists. reflexivity.
    + destruct (Hrows' (fun s v => (Series.name s, v))) as [rows ->].
      cbn [bind]. eexists. reflexivity.
Qed.

Lemma index_last_defined {A : Type} (l : list A) (n : nat) :
  index l (of_nat n - of_Z 1)%num <> None <-> (1 <= n <= length l)%nat.
Proof.
  destruct n as [|n].
  - split; [|lia]. intro Hne. exfalso. apply Hne. reflexivity.
  - rewrite of_nat_pred by lia. rewrite index_of_nat, nth_error_Some. lia.
Qed.

Lemma index_hover_defined {A : Type} (l : list A) (k : nat) :
  index l (of_nat k) <> None <-> (k < length l)%nat.
Proof. rewrite index_of_nat. apply nth_error_Some. Qed.


(** C2, as stated, fails: nothing is validated.  An empty series list
    throws a [TypeError] at [series[0].points], and a second series shorter
    than the first throws one at the legend lookup. *)
Lemma render_malformed_throws :
  render [] None = Throw TypeError /\
  render
    [ Series.mk "a" "#000" [mkPoint 2026 (of_Z 1); mkPoint 2027 (of_Z 2)];
      Series.mk "b" "#fff" [mkPoint 2026 (of_Z 1)] ] None
  = Throw TypeError.
Proof. split; reflexivity. Qed.

(** C2, amended.  The renderer does no validation and has two outcomes, a
    view or a thrown [TypeError].  An empty series list always throws.  At
    rest the render returns a view exactly when the list is not empty, the
    first series has at least one point and no series has fewer points than
    the first; while hovering index [k] it returns a view exactly when the
    list is not empty and every series has more than [k] points. *)
Theorem render_unvalidated (series : list Series.t) :
  (forall h, (exists v, render series h = Ok v) \/ render series h = Throw TypeError) /\
  (series = [] -> forall h, render series h = Throw TypeError) /\
  ((exists v, render series None = Ok v) <->
   series <> [] /\ (1 <= N series)%nat /\
   Forall (fun s => (N series <= length (Series.points s))%nat) series) /\
  (forall k : nat,
     (exists v, render series (Some (of_nat k)) = Ok v) <->
     series <> [] /\
     Forall (fun s => (k < length (Series.points s))%nat) series).
Proof.
  split; [intro h; apply result_cases|].
  split; [intros -> h; reflexivity|].
  split.
  - rewrite render_Ok_iff. cbn [legendIndex]. split.
    + intros [Hne Hall]. split; [exact Hne|].
      assert (Hall' : Forall (fun s => (1 <= N series <= length (Series.points s))%nat)
                        series).
      { eapply Forall_impl; [|exact Hall]. intros s Hs.
        now apply index_last_defined. }
      split.
      * destruct series as [|s0 rest]; [congruence|].
        inversion Hall'; subst. lia.
      * eapply Forall_impl; [|exact Hall']. cbn beta. intros; lia.
    + intros (Hne & Hn & Hall). split; [exact Hne|].
      eapply Forall_impl; [|exact Hall]. intros s Hs. cbn beta in Hs.
      apply index_last_defined. lia.
  - intro k. rewrite render_Ok_iff. cbn [legendIndex].
    split; intros [Hne Hall]; (split; [exact Hne|]);
      (eapply Forall_impl; [|exact Hall]); intros s Hs;
      now apply index_hover_defined.
Qed.

Lemma render_unvalidated_witness :
  exists v, render (App.portfolio_series 2026 App.initial_accounts) None = Ok v.
Proof.
  destruct (render_unvalidated (App.portfolio_series 2026 App.initial_accounts))
    as (_ & _ & [_ Hidle] & _).
  apply Hidle. split; [discriminate|]. split; [vm_compute; lia|].
  repeat constructor.
Defined.

(** ** Pointer-leave and series changes *)



(** In [App] the observer is the setter of [hoverYearIndex]: after a
    pointer-leave it holds none, and the stat cards under the chart read
    index [years = 10], the last point of each projection. *)
Lemma cards_after_leave (currentYear : Z) (start rate : num) (c : chart)
    (hoverYearIndex : option num) :
  snd (handleLeave (Some App.setHoverYearIndex) (c, hoverYearIndex)) = None /\
  App.lastIdx None (projectGrowth currentYear start (of_Z 0) App.years rate)
  = of_nat 10.
Proof.
  split; [reflexivity|].
  unfold App.lastIdx. rewrite projectGrowth_length.
  apply strict_eq_eq. vm_compute. reflexivity.
Qed.


Lemma hover_index_right_edge :
  hover_index 11 (Fin (Q2Qc 870) - Fin (Q2Qc 0))%num = of_nat 10.
Proof.
  cbn [sub add neg].
  destruct (hover_index_fin 11 (Q2Qc 870 + - Q2Qc 0)%Qc) as (c & _ & _ & Hid & E).
  rewrite E, Hid by (unfold inject_Z; cbn; lra). reflexivity.
Qed.

(** C3, as stated, fails.  The chart of the portfolio dialog, pointer at
    the right edge: the state is [Hovering(10)].  Re-rendered with a series
    of three points it still holds index 10, which is out of range there,
    and the render throws. *)
Lemma series_change_keeps_stale_index :
  let cb := Some App.setHoverYearIndex in
  let short :=
    [ Series.mk "a" "#000"
        [mkPoint 2026 (of_Z 1); mkPoint 2027 (of_Z 2); mkPoint 2028 (of_Z 3)] ] in
  let st1 :=
    run cb (mount (App.portfolio_series 2026 App.initial_accounts)
              (mkRect (Q2Qc 0)) None)
      [PointerMove (mkEvent (Q2Qc 870))] in
  let st2 := step cb st1 (SeriesChange short) in
  reachable cb st1 /\
  hoverI (fst st1) = Some (of_nat 10) /\
  hoverI (fst st2) = Some (of_nat 10) /\
  hoverI (fst st2) <> None /\
  Forall (fun s => index (Series.points s) (of_nat 10) = None) (series (fst st2)) /\
  render (series (fst st2)) (hoverI (fst st2)) = Throw TypeError.
Proof.
  intros cb short st1 st2.
  assert (E1 : hoverI (fst st1) = Some (of_nat 10)).
  { unfold st1. cbn [run fold_left step mount handleMove svgRef series fst hoverI
                       clientX left].
    change (N (App.portfolio_series 2026 App.initial_accounts)) with 11%nat.
    now rewrite hover_index_right_edge. }
  assert (E2 : hoverI (fst st2) = Some (of_nat 10)).
  { unfold st2, step, rerender. destruct st1 as [c1 p1]. exact E1. }
  split.
  - exists (App.portfolio_series 2026 App.initial_accounts),
           (mkRect (Q2Qc 0)), None, [PointerMove (mkEvent (Q2Qc 870))].
    reflexivity.
  - split; [exact E1|]. split; [exact E2|]. split; [rewrite E2; discriminate|].
    split.
    + repeat constructor.
    + rewrite E2. reflexivity.
Qed.

(** C3, amended.  A change of the series set leaves a reachable chart in
    the state it was in: the hover index is kept and the observer is not
    notified; only pointer-leave resets the index to none.  The render
    that follows returns exactly when the kept index (or [N - 1] at rest)
    is defined in every new series. *)
Theorem series_change_keeps_hover (Parent : Type)
    (cb : option (option num -> Parent -> Parent))
    (st : chart * Parent) (s : list Series.t) :
  reachable cb st ->
  series (fst (step cb st (SeriesChange s))) = s /\
  hoverI (fst (step cb st (SeriesChange s))) = hoverI (fst st) /\
  snd (step cb st (SeriesChange s)) = snd st /\
  hoverI (fst (step cb (step cb st (SeriesChange s)) PointerLeave)) = None /\
  ((exists v, render (series (fst (step cb st (SeriesChange s))))
                     (hoverI (fst (step cb st (SeriesChange s)))) = Ok v) <->
   s <> [] /\
   Forall (fun s' => index (Series.points s')
                       (legendIndex (hoverI (fst st)) (N s)) <> None) s).
Proof.
  intros _. destruct st as [c p].
  cbn [step rerender handleLeave fst snd series hoverI].
  do 4 (split; [reflexivity|]). apply render_Ok_iff.
Qed.

Lemma series_change_keeps_hover_witness :
  let cb := Some App.setHoverYearIndex in
  let st :=
    run cb (mount (App.portfolio_series 2026 App.initial_accounts)
              (mkRect (Q2Qc 0)) None)
      [PointerMove (mkEvent (Q2Qc 870))] in
  hoverI (fst (step cb st (SeriesChange []))) = hoverI (fst st).
Proof.
  intros cb st.
  assert (Hreach : reachable cb st).
  { exists (App.portfolio_series 2026 App.initial_accounts),
           (mkRect (Q2Qc 0)), None, [PointerMove (mkEvent (Q2Qc 870))].
    reflexivity. }
  destruct (series_change_keeps_hover (option num) cb st [] Hreach)
    as (_ & Hkeep & _).
  exact Hkeep.
Defined.

(** ** Adding and deleting a transaction *)

Import App.






(** The add changes the balance it is undone from: between the two
    commands the account holds [5000 - 4.5]. *)
Example add_updates_balance :
  map (fun a => strict_eq (Account.balance a) (lit 49955 10))
    (accounts
       (addTransaction (fun _ => lit (-45) 10) "u1" "2026-11-01"
          (mkState initial_accounts (initial_transactions "2026-11-01") true
             (mkNewTx " Coffee " "" "-4.5" "acc2"))))
  = [false; true].
Proof. vm_compute. reflexivity. Qed.

(** Why the identifier has to be new: [deleteTransaction] filters on the
    identifier, so an older transaction carrying the same one is removed as
    well. *)
Example delete_removes_every_match :
  List.length
    (transactions
       (deleteTransaction "t1"
          (addTransaction (fun _ => lit (-45) 10) "t1" "2026-11-01"
             (mkState initial_accounts (initial_transactions "2026-11-01") true
                (mkNewTx "Coffee" "" "-4.5" "acc2")))))
  = 1%nat.
Proof. vm_compute. reflexivity. Qed.

(** * Further properties of the code *)

(** ** The horizontal scale *)

Lemma Fin_eq (a b : Qc) : (a == b)%Q -> Fin a = Fin b.
Proof. intro E. f_equal. now apply Qc_is_canon. Qed.

Lemma inject_nat_ge (n k : nat) :
  (k <= n)%nat -> (inject_Z (Z.of_nat k) <= inject_Z (Z.of_nat n))%Q.
Proof. intro H. rewrite <- Zle_Qle. lia. Qed.

(** X1.  From two points on, the horizontal scale starts at the left
    padding, ends at the right padding and is strictly increasing. *)
Theorem x_endpoints_increasing (n : nat) :
  (2 <= n)%nat ->
  x n (of_Z 0) = P /\
  x n (of_nat (n - 1)) = (W - P)%num /\
  forall i j : Qc, (i < j)%Qc -> ltb (x n (Fin i)) (x n (Fin j)) = true.
Proof.
  intro Hn.
  assert (Ha : (2 <= inject_Z (Z.of_nat n))%Q).
  { change 2%Q with (inject_Z (Z.of_nat 2)). now apply inject_nat_ge. }
  set (a := inject_Z (Z.of_nat n)) in *.
  assert (Hne : ~ (a - 1 == 0)%Q) by lra.
  split; [|split].
  - destruct (x_fin n (Q2Qc (inject_Z 0)) Hn) as (q & Ex & Eq).
    unfold of_Z at 1. rewrite Ex. unfold P, of_Z. apply Fin_eq.
    rewrite Eq. fold a. cbn [this Q2Qc]. rewrite !Qred_correct.
    unfold inject_Z. field. exact Hne.
  - destruct (x_fin n (Q2Qc (inject_Z (Z.of_nat (n - 1)))) Hn) as (q & Ex & Eq).
    unfold of_nat at 1. unfold of_Z at 1. rewrite Ex.
    cbn [W P sub add neg of_Z]. apply Fin_eq.
    rewrite Eq. fold a. cbn [this Q2Qc Qcplus Qcopp]. rewrite !Qred_correct.
    replace (Z.of_nat (n - 1)) with (Z.of_nat n + -1)%Z by lia.
    rewrite inject_Z_plus. fold a. unfold inject_Z. field. exact Hne.
  - intros i j Hij.
    destruct (x_fin n i Hn) as (qi & Ei & Eqi).
    destruct (x_fin n j Hn) as (qj & Ej & Eqj).
    rewrite Ei, Ej. cbn [ltb]. apply Qc_ltb_lt.
    unfold Qclt in *. rewrite Eqi, Eqj. fold a.
    assert (Hinv : (0 < / (a - 1))%Q) by (apply Qinv_lt_0_compat; lra).
    unfold Qdiv. set (t := (/ (a - 1))%Q) in *. nra.
Qed.

Lemma x_endpoints_increasing_witness :
  x 11 (of_Z 0) = P /\ x 11 (of_nat (11 - 1)) = (W - P)%num.
Proof.
  destruct (x_endpoints_increasing 11 ltac:(lia)) as (H0 & H1 & _).
  split; assumption.
Defined.

(** ** The hover index is the nearest index *)





(** ** Integers as numbers *)

Lemma Qc_ltb_inject (a b : Z) :
  Qc_ltb (Q2Qc (inject_Z a)) (Q2Qc (inject_Z b)) = (a <? b)%Z.
Proof.
  destruct (Z.ltb_spec a b) as [H|H].
  - apply Qc_ltb_lt. unfold Qclt. cbn [this Q2Qc]. rewrite !Qred_correct.
    now rewrite <- Zlt_Qlt.
  - apply Qc_ltb_ge. unfold Qcle. cbn [this Q2Qc]. rewrite !Qred_correct.
    now rewrite <- Zle_Qle.
Qed.

Lemma max2_of_Z (a b : Z) : max2 (of_Z a) (of_Z b) = of_Z (Z.max a b).
Proof.
  unfold of_Z. cbn [max2 ltb]. rewrite Qc_ltb_inject.
  destruct (Z.ltb_spec a b); f_equal; f_equal; f_equal; lia.
Qed.

Lemma min2_of_Z (a b : Z) : min2 (of_Z a) (of_Z b) = of_Z (Z.min a b).
Proof.
  unfold of_Z. cbn [min2 ltb]. rewrite Qc_ltb_inject.
  destruct (Z.ltb_spec b a); f_equal; f_equal; f_equal; lia.
Qed.

Lemma sub_of_Z (a b : Z) : (of_Z a - of_Z b)%num = of_Z (a - b).
Proof.
  unfold of_Z. cbn [sub add neg]. apply Fin_eq.
  cbn [this Q2Qc Qcplus Qcopp]. rewrite !Qred_correct.
  unfold Z.sub. now rewrite inject_Z_plus, inject_Z_opp.
Qed.

Lemma index_of_Z {A : Type} (l : list A) (z : Z) :
  index l (of_Z z)
  = if (0 <=? z)%Z then nth_error l (Z.to_nat z) else None.
Proof.
  unfold index, of_Z. cbn [this Q2Qc].
  rewrite Qred_inject_Z. cbn [inject_Z Qnum Qden Pos.eqb andb]. reflexivity.
Qed.

(** ** The stat cards *)

Lemma lastIdx_of_Z (conservative : list point) (z : Z) :
  lastIdx (Some (of_Z z)) conservative
  = of_Z (Z.min (Z.max z 0) (Z.of_nat (length conservative) - 1)).
Proof.
  unfold lastIdx, legendI, of_nat.
  now rewrite max2_of_Z, sub_of_Z, min2_of_Z.
Qed.

(** X3.  The index of the stat cards is clamped: for any integer hover
    index, in range or not, [lastIdx] is that index brought into
    [0 .. length-1], so [conservative[lastIdx]] is defined for every
    non-empty projection; with no hover it is index [years], brought into
    range the same way. *)
Theorem lastIdx_clamped (conservative : list point) :
  conservative <> [] ->
  (forall z : Z,
     lastIdx (Some (of_Z z)) conservative
     = of_Z (Z.min (Z.max z 0) (Z.of_nat (length conservative) - 1)) /\
     index conservative (lastIdx (Some (of_Z z)) conservative) <> None) /\
  lastIdx None conservative
  = of_Z (Z.min (Z.of_nat years) (Z.of_nat (length conservative) - 1)) /\
  index conservative (lastIdx None conservative) <> None.
Proof.
  intro Hne.
  assert (Hlen : (0 < length conservative)%nat).
  { destruct conservative; [congruence | cbn; lia]. }
  pose proof (lastIdx_of_Z conservative) as Hcl.
  assert (Hdef : forall z : Z,
             index conservative
               (of_Z (Z.min (Z.max z 0) (Z.of_nat (length conservative) - 1)))
             <> None).
  { intro z. rewrite index_of_Z.
    destruct (Z.leb_spec 0 (Z.min (Z.max z 0) (Z.of_nat (length conservative) - 1)));
      [|lia].
    apply nth_error_Some. lia. }
  split; [|split].
  - intro z. split; [apply Hcl|]. rewrite Hcl. apply Hdef.
  - change (lastIdx None conservative)
      with (lastIdx (Some (of_Z (Z.of_nat years))) conservative).
    rewrite Hcl. f_equal; lia.
  - change (lastIdx None conservative)
      with (lastIdx (Some (of_Z (Z.of_nat years))) conservative).
    rewrite Hcl. apply Hdef.
Qed.

Lemma lastIdx_clamped_witness :
  lastIdx None (projectGrowth 2026 (of_Z 10000) (of_Z 0) years (lit 4 100))
  = of_Z (Z.min (Z.of_nat years)
            (Z.of_nat (length (projectGrowth 2026 (of_Z 10000) (of_Z 0) years
                                 (lit 4 100))) - 1)).
Proof.
  destruct (lastIdx_clamped
              (projectGrowth 2026 (of_Z 10000) (of_Z 0) years (lit 4 100)))
    as (_ & H & _).
  - vm_compute. discriminate.
  - exact H.
Defined.

(** ** Traces of chart events *)

Lemma run_app (Parent : Type) (cb : option (option num -> Parent -> Parent))
    (st : chart * Parent) (evs : list event) (ev : event) :
  run cb st (evs ++ [ev]) = step cb (run cb st evs) ev.
Proof. unfold run. now rewrite fold_left_app. Qed.

Lemma run_pointer_props (Parent : Type)
    (cb : option (option num -> Parent -> Parent))
    (evs : list event) (st : chart * Parent) :
  forallb is_pointer evs = true ->
  series (fst (run cb st evs)) = series (fst st) /\
  svgRef (fst (run cb st evs)) = svgRef (fst st).
Proof.
  revert st. induction evs as [|ev evs IH]; intros st Hp; [now split|].
  cbn [forallb] in Hp. apply andb_prop in Hp. destruct Hp as [Hev Hevs].
  change (run cb st (ev :: evs)) with (run cb (step cb st ev) evs).
  destruct (IH (step cb st ev) Hevs) as [Hs Hr]. rewrite Hs, Hr.
  destruct st as [c p]. destruct ev as [e| |s]; cbn [step is_pointer] in *.
  - unfold handleMove. destruct (svgRef c) eqn:E; cbn; auto.
  - cbn. auto.
  - discriminate.
Qed.

(** X4.  Last write wins.  On a mounted chart, after any sequence of
    pointer events the chart is in the state the last event alone would
    have put it in: a final move at an offset gives the hover index of that
    offset whatever came before, and a final leave gives none. *)
Theorem last_pointer_event_decides (Parent : Type)
    (cb : option (option num -> Parent -> Parent))
    (st : chart * Parent) (r : rect) (evs : list event) :
  svgRef (fst st) = Some r ->
  forallb is_pointer evs = true ->
  (forall e : mouse_event,
     fst (run cb st (evs ++ [PointerMove e])) = fst (handleMove cb e st) /\
     hoverI (fst (run cb st (evs ++ [PointerMove e])))
     = Some (hover_index (N (series (fst st)))
               (Fin (clientX e) - Fin (left r))%num)) /\
  fst (run cb st (evs ++ [PointerLeave])) = fst (handleLeave cb st).
Proof.
  intros Hr Hp.
  destruct (run_pointer_props Parent cb evs st Hp) as [Hs Href].
  destruct st as [c p]. cbn [fst] in *.
  split.
  - intro e. rewrite run_app. cbn [step].
    destruct (run cb (c, p) evs) as [c' p'] eqn:E. cbn [fst] in *.
    unfold handleMove. rewrite Href, Hr, Hs. cbn [fst hoverI]. auto.
  - rewrite run_app. cbn [step].
    destruct (run cb (c, p) evs) as [c' p'] eqn:E. cbn [fst] in *.
    unfold handleLeave. cbn [fst]. now rewrite Href, Hs.
Qed.

Lemma last_pointer_event_decides_witness :
  let st := mount (portfolio_series 2026 initial_accounts) (mkRect (Q2Qc 0))
              (@None num) in
  fst (run (Some setHoverYearIndex) st
         ([PointerMove (mkEvent (Q2Qc 100)); PointerLeave;
           PointerMove (mkEvent (Q2Qc 700))] ++ [PointerLeave]))
  = fst (handleLeave (Some setHoverYearIndex) st).
Proof.
  intro st.
  destruct (last_pointer_event_decides (option num) (Some setHoverYearIndex)
              st (mkRect (Q2Qc 0))
              [PointerMove (mkEvent (Q2Qc 100)); PointerLeave;
               PointerMove (mkEvent (Q2Qc 700))]
              eq_refl eq_refl) as [_ H].
  exact H.
Defined.

(** ** The chart inside [App] *)






(** ** Closed form and ordering of projections *)




Lemma value_at_rate_monotone (s c r1 r2 : Qc) (k : nat) :
  (0 <= s)%Qc -> (0 <= c)%Qc -> (0 <= r1)%Qc -> (r1 <= r2)%Qc ->
  exists q1 q2 : Qc,
    value_at (Fin s) (Fin c) (Fin r1) k = Fin q1 /\
    value_at (Fin s) (Fin c) (Fin r2) k = Fin q2 /\
    (0 <= q1)%Qc /\ (q1 <= q2)%Qc.
Proof.
  intros Hs Hc Hr1 Hr. induction k as [|k (q1 & q2 & E1 & E2 & H0 & H12)].
  - exists s, s. repeat split; auto using Qcle_refl.
  - rewrite !value_at_step, E1, E2. cbn [add mul of_Z].
    do 2 eexists. split; [reflexivity|]. split; [reflexivity|].
    qc_unfold. split; nra.
Qed.

(** X7.  The scenarios do not cross.  For a non-negative start, a
    non-negative contribution and rates [0 <= r1 <= r2], the projection at
    the higher rate is at no period below the one at the lower rate; so in
    the chart of a non-negative invested balance the conservative line is
    never above the moderate one, nor the moderate above the aggressive. *)
Theorem projectGrowth_rate_monotone (cy : Z) (s c r1 r2 : Qc) (horizon k : nat) :
  (0 <= s)%Qc -> (0 <= c)%Qc -> (0 <= r1)%Qc -> (r1 <= r2)%Qc ->
  (k <= horizon)%nat ->
  exists p1 p2 : point,
    nth_error (projectGrowth cy (Fin s) (Fin c) horizon (Fin r1)) k = Some p1 /\
    nth_error (projectGrowth cy (Fin s) (Fin c) horizon (Fin r2)) k = Some p2 /\
    year p1 = year p2 /\
    gtb (value p1) (value p2) = false.
Proof.
  intros Hs Hc Hr1 Hr Hk.
  destruct (value_at_rate_monotone s c r1 r2 k Hs Hc Hr1 Hr)
    as (q1 & q2 & E1 & E2 & _ & H12).
  do 2 eexists. rewrite !projectGrowth_nth by exact Hk.
  split; [reflexivity|]. split; [reflexivity|]. split; [reflexivity|].
  cbn [point_at value]. rewrite E1, E2. cbn [gtb ltb]. now apply Qc_ltb_ge.
Qed.

Lemma projectGrowth_rate_monotone_witness :
  exists p1 p2 : point,
    nth_error (projectGrowth 2026 (Fin (Q2Qc 10000)) (Fin (Q2Qc 0)) 10
                 (Fin (Q2Qc (4 # 100)))) 7 = Some p1 /\
    nth_error (projectGrowth 2026 (Fin (Q2Qc 10000)) (Fin (Q2Qc 0)) 10
                 (Fin (Q2Qc (6 # 100)))) 7 = Some p2 /\
    year p1 = year p2 /\
    gtb (value p1) (value p2) = false.
Proof.
  apply (projectGrowth_rate_monotone 2026 (Q2Qc 10000) (Q2Qc 0)
           (Q2Qc (4 # 100)) (Q2Qc (6 # 100)) 10 7);
    first [lia | now vm_compute].
Defined.

(** ** The lines stay inside the drawing band *)

Lemma value_in_all (series : list Series.t) (s : Series.t) (p : point) :
  In s series -> In p (Series.points s) -> In (value p) (all series).
Proof.
  intros Hs Hp. unfold all. apply in_flat_map. exists s. split; [exact Hs|].
  now apply in_map.
Qed.

(** For non-negative values the top of the value scale is positive and no
    value exceeds it. *)
Lemma max_dominates (series : list Series.t) :
  all series <> [] ->
  Forall (fun v => exists q : Qc, v = Fin q /\ (0 <= q)%Qc) (all series) ->
  exists m : Qc,
    AreaChart.max series = Fin m /\ (0 < m)%Qc /\
    forall q : Qc, In (Fin q) (all series) -> (0 <= q)%Qc /\ (q <= m)%Qc.
Proof.
  intros Hne Hpos.
  assert (Hfin : Forall (fun v => is_finite v = true) (all series)).
  { eapply Forall_impl; [|exact Hpos]. intros v (q & -> & _). reflexivity. }
  destruct (max_fin series Hne Hfin) as (M & _ & Hin & Hall & Emax).
  rewrite Forall_forall in Hpos, Hall.
  assert (HM : (0 <= M)%Qc).
  { destruct (Hpos _ Hin) as (q & [= ->] & Hq). exact Hq. }
  assert (Hle : forall q : Qc, In (Fin q) (all series) ->
                               (0 <= q)%Qc /\ (q <= M)%Qc).
  { intros q Hq. split.
    - destruct (Hpos _ Hq) as (q' & [= ->] & Hq'). exact Hq'.
    - specialize (Hall _ Hq). cbn [ltb] in Hall. now apply Qc_ltb_ge. }
  rewrite Emax. destruct (Qc_is_zero M) eqn:EM.
  - apply Qc_is_zero_true in EM. subst M.
    exists (Q2Qc (inject_Z 1)). split; [reflexivity|]. split; [reflexivity|].
    intros q Hq. destruct (Hle q Hq) as [H0 H1]. split; [exact H0|].
    qc_unfold. lra.
  - cbn [mul lit]. eexists. split; [reflexivity|].
    assert (HM' : (0 < M)%Qc).
    { destruct (Qcle_lt_or_eq _ _ HM) as [H|H]; [exact H|].
      subst M. discriminate. }
    split.
    + qc_unfold. nra.
    + intros q Hq. destruct (Hle q Hq) as [H0 H1]. split; [exact H0|].
      qc_unfold. nra.
Qed.

(** X8.  For non-negative finite values and a chart of at least two
    points, every vertex of the line of a series no longer than the first
    lies inside the padded drawing band: [P <= x <= W-P] and
    [P <= y <= H-P]. *)
Theorem path_in_band (series : list Series.t) (s : Series.t) :
  Forall (fun v => exists q : Qc, v = Fin q /\ (0 <= q)%Qc) (all series) ->
  In s series ->
  (2 <= N series)%nat ->
  (1 <= length (Series.points s) <= N series)%nat ->
  Forall
    (fun xy => exists qx qy : Qc,
       xy = (Fin qx, Fin qy) /\
       (30 <= qx)%Q /\ (qx <= 870)%Q /\ (30 <= qy)%Q /\ (qy <= 290)%Q)
    (path (N series) (AreaChart.max series) (Series.points s)).
Proof.
  intros Hpos Hs Hn Hlen.
  assert (Hne : all series <> []).
  { destruct (Series.points s) as [|p ps] eqn:Ep; [cbn in Hlen; lia|].
    intro E. assert (Hin : In (value p) (all series)).
    { apply (value_in_all series s p Hs). rewrite Ep. now left. }
    rewrite E in Hin. contradiction. }
  destruct (max_dominates series Hne Hpos) as (m & Em & Hm & Hdom).
  rewrite Em. apply Forall_forall. intros xy Hxy.
  unfold path, indexed in Hxy. apply in_map_iff in Hxy.
  destruct Hxy as ([i p] & <- & Hip). cbn [fst snd].
  pose proof (in_combine_l _ _ _ _ Hip) as Hi. apply in_seq in Hi.
  pose proof (in_combine_r _ _ _ _ Hip) as Hp.
  pose proof (value_in_all series s p Hs Hp) as Hv.
  rewrite Forall_forall in Hpos. destruct (Hpos _ Hv) as (v & Ev & _).
  rewrite Ev in Hv |- *. destruct (Hdom v Hv) as [Hv0 Hvm].
  assert (Hm0 : m <> 0%Qc).
  { intro E. subst m. discriminate. }
  destruct (y_fin m v Hm0) as (qy & Ey & Eqy).
  destruct (x_fin (N series) (Q2Qc (inject_Z (Z.of_nat i))) Hn) as (qx & Ex & Eqx).
  exists qx, qy. split; [unfold of_nat, of_Z; now rewrite Ex, Ey|].
  cbn [this Q2Qc] in Eqx. rewrite Qred_correct in Eqx.
  assert (Ha : (2 <= inject_Z (Z.of_nat (N series)))%Q).
  { change 2%Q with (inject_Z (Z.of_nat 2)). now apply inject_nat_ge. }
  assert (Hi0 : (0 <= inject_Z (Z.of_nat i))%Q).
  { change 0%Q with (inject_Z (Z.of_nat 0)). apply inject_nat_ge. lia. }
  assert (Hi1 : (inject_Z (Z.of_nat i) <= inject_Z (Z.of_nat (N series)) - 1)%Q).
  { change 1%Q with (inject_Z 1). unfold Qminus.
    rewrite <- inject_Z_opp, <- inject_Z_plus, <- Zle_Qle. lia. }
  set (a := inject_Z (Z.of_nat (N series))) in *.
  set (b := inject_Z (Z.of_nat i)) in *.
  assert (Hfx : (0 <= b / (a - 1))%Q /\ (b / (a - 1) <= 1)%Q).
  { split; [apply Qle_shift_div_l | apply Qle_shift_div_r]; lra. }
  assert (Hfy : (0 <= v / m)%Q /\ (v / m <= 1)%Q).
  { unfold Qclt, Qcle in *. cbn [this Q2Qc] in Hm, Hv0. 
    rewrite Qred_correct in Hm, Hv0.
    split; [apply Qle_shift_div_l | apply Qle_shift_div_r]; lra. }
  rewrite Eqx, Eqy. destruct Hfx, Hfy. repeat split; nra.
Qed.

Lemma path_in_band_witness :
  Forall
    (fun xy => exists qx qy : Qc,
       xy = (Fin qx, Fin qy) /\
       (30 <= qx)%Q /\ (qx <= 870)%Q /\ (30 <= qy)%Q /\ (qy <= 290)%Q)
    (path 2 (AreaChart.max
               [Series.mk "a" "#000" [mkPoint 2026 (of_Z 1); mkPoint 2027 (of_Z 2)]])
       [mkPoint 2026 (of_Z 1); mkPoint 2027 (of_Z 2)]).
Proof.
  apply (path_in_band
           [Series.mk "a" "#000" [mkPoint 2026 (of_Z 1); mkPoint 2027 (of_Z 2)]]
           (Series.mk "a" "#000" [mkPoint 2026 (of_Z 1); mkPoint 2027 (of_Z 2)])).
  - repeat constructor; eexists; (split; [reflexivity | now vm_compute]).
  - now left.
  - cbn. lia.
  - cbn. lia.
Defined.

(** ** Trimming *)

Lemma trim_end_empty (s : string) :
  trim_end s = EmptyString <-> all_space s = true.
Proof.
  induction s as [|c s IH]; cbn [trim_end all_space]; [tauto|].
  destruct (trim_end s) as [|b t] eqn:E.
  - destruct (is_space c); cbn [andb].
    + split; intros _; [now apply IH | reflexivity].
    + split; discriminate.
  - split; [discriminate|]. intro H. apply andb_prop in H.
    destruct H as [_ H]. apply IH in H. discriminate.
Qed.






(** ** What [addTransaction] accepts and stores *)



(** ** Sums of finite numbers *)




(** ** Balances after an add *)



(** ** Balances and recorded transactions *)














(** ** Deleting twice, deleting in either order *)








(** ** Transactions on accounts that are not invested *)

Lemma filter_brokerage_map (aid : string) (g : Account.t -> num)
    (accs : list Account.t) :
  (forall a, In a accs -> Account.id a = aid -> Account.type a <> Brokerage) ->
  filter (fun a => match Account.type a with Brokerage => true | _ => false end)
    (map (fun a => if String.eqb (Account.id a) aid
                   then set_balance a (g a) else a) accs)
  = filter (fun a => match Account.type a with Brokerage => true | _ => false end)
      accs.
Proof.
  induction accs as [|a l IH]; intro H; cbn [map filter]; [reflexivity|].
  rewrite IH by (intros a' Ha'; apply H; now right).
  destruct (String.eqb (Account.id a) aid) eqn:E; [|reflexivity].
  apply String.eqb_eq in E. pose proof (H a (or_introl eq_refl) E) as Ht.
  cbn [set_balance Account.type]. destruct (Account.type a); congruence.
Qed.

(** X13.  Only brokerage accounts feed the projections: an add against
    an account id that no brokerage account carries, and any delete of a
    transaction recorded against such an id, leave the invested balance
    and the three series handed to the chart unchanged. *)
Theorem cash_transactions_keep_projection (Number : string -> num)
    (uuid today i : string) (cy : Z) (st : state) :
  (forall a, In a (accounts st) -> Account.type a = Brokerage ->
             Account.id a <> nt_accountId (newTx st)) ->
  (forall tx a, In tx (transactions st) -> Transaction.id tx = i ->
                In a (accounts st) -> Account.type a = Brokerage ->
                Account.id a <> Transaction.accountId tx) ->
  investedBalance (accounts (addTransaction Number uuid today st))
  = investedBalance (accounts st) /\
  portfolio_series cy (accounts (addTransaction Number uuid today st))
  = portfolio_series cy (accounts st) /\
  investedBalance (accounts (deleteTransaction i st))
  = investedBalance (accounts st) /\
  portfolio_series cy (accounts (deleteTransaction i st))
  = portfolio_series cy (accounts st).
Proof.
  intros Hadd Hdel.
  assert (Ha : investedBalance (accounts (addTransaction Number uuid today st))
               = investedBalance (accounts st)).
  { unfold addTransaction.
    destruct (_ || _)%bool; [reflexivity|]. cbn [accounts].
    unfold investedBalance.
    rewrite (filter_brokerage_map (nt_accountId (newTx st))
               (fun a => (Account.balance a + _)%num)); [reflexivity|].
    intros a Hin Hid Ht. now apply (Hadd a Hin Ht). }
  assert (Hd : investedBalance (accounts (deleteTransaction i st))
               = investedBalance (accounts st)).
  { unfold deleteTransaction.
    destruct (find _ (transactions st)) as [tx|] eqn:Ef; [|reflexivity].
    apply find_some in Ef. destruct Ef as [Hin Hid]. apply String.eqb_eq in Hid.
    cbn [accounts]. unfold investedBalance.
    rewrite (filter_brokerage_map (Transaction.accountId tx)
               (fun a => (Account.balance a - _)%num)); [reflexivity|].
    intros a Hina Hida Ht. now apply (Hdel tx a Hin Hid Hina Ht). }
  unfold portfolio_series. rewrite Ha, Hd. repeat split.
Qed.

Lemma cash_transactions_keep_projection_witness :
  portfolio_series 2026
    (accounts
       (addTransaction (fun _ => lit (-45) 10) "u1" "2026-11-01"
          (mkState initial_accounts (initial_transactions "2026-11-01") true
             (mkNewTx "Coffee" "" "-4.5" "acc2"))))
  = portfolio_series 2026 initial_accounts.
Proof.
  destruct (cash_transactions_keep_projection (fun _ => lit (-45) 10)
              "u1" "2026-11-01" "t2" 2026
              (mkState initial_accounts (initial_transactions "2026-11-01") true
                 (mkNewTx "Coffee" "" "-4.5" "acc2"))) as (_ & H & _).
  - cbn. intros a [<-|[<-|[]]] Ht; cbn in *; discriminate.
  - cbn. intros tx a [<-|[<-|[]]] Hid [<-|[<-|[]]] Ht; cbn in *; discriminate.
  - exact H.
Defined.

(** ** The cash-flow figures of the dashboard *)






(** ** The sparkline *)







(** ** Budgets *)

Lemma budgets_eta (st : Budgets.state) :
  Budgets.mkState (Budgets.budgets st) (Budgets.newRow st) = st.
Proof. now destruct st. Qed.

(** X16.  [updateField] edits in place: the rows keep their identifiers
    and their order, rows with another identifier are untouched, an
    unknown identifier or a numeric field given text that is not a number
    changes nothing, and no [NaN] ever enters a limit or a spent amount
    through it. *)
Theorem updateField_in_place (Number : string -> num) (i : string)
    (k : Budgets.key) (value : string) (st : Budgets.state) :
  map Budgets.id (Budgets.budgets (Budgets.updateField Number i k value st))
  = map Budgets.id (Budgets.budgets st) /\
  (forall n b, nth_error (Budgets.budgets st) n = Some b -> Budgets.id b <> i ->
     nth_error (Budgets.budgets (Budgets.updateField Number i k value st)) n
     = Some b) /\
  (~ In i (map Budgets.id (Budgets.budgets st)) ->
   Budgets.updateField Number i k value st = st) /\
  (k <> Budgets.KCategory -> isNaN (Number value) = true ->
   Budgets.updateField Number i k value st = st) /\
  (Forall (fun b => isNaN (Budgets.limit b) = false /\
                    isNaN (Budgets.spent b) = false) (Budgets.budgets st) ->
   Forall (fun b => isNaN (Budgets.limit b) = false /\
                    isNaN (Budgets.spent b) = false)
     (Budgets.budgets (Budgets.updateField Number i k value st))).
Proof.
  unfold Budgets.updateField. cbn [Budgets.budgets].
  set (f := fun b : Budgets.Budget => _).
  assert (Hid : forall b, Budgets.id (f b) = Budgets.id b).
  { intro b. unfold f. destruct (String.eqb (Budgets.id b) i); cbn [negb];
      [|reflexivity].
    destruct k; [reflexivity | |]; destruct (isNaN (Number value)); reflexivity. }
  assert (Hother : forall b, Budgets.id b <> i -> f b = b).
  { intros b Hb. unfold f. apply String.eqb_neq in Hb. now rewrite Hb. }
  split; [|split; [|split; [|split]]].
  - rewrite map_map. apply map_ext. exact Hid.
  - intros n b Hn Hb. rewrite nth_error_map, Hn. cbn. now rewrite Hother.
  - intro Hnot. transitivity (Budgets.mkState (Budgets.budgets st) (Budgets.newRow st));
      [|apply budgets_eta]. f_equal.
    transitivity (map (fun b => b) (Budgets.budgets st)); [|apply map_id].
    apply map_ext_in. intros b Hb. apply Hother. intro E. apply Hnot.
    rewrite <- E. now apply in_map.
  - intros Hk Hnan. transitivity (Budgets.mkState (Budgets.budgets st) (Budgets.newRow st));
      [|apply budgets_eta]. f_equal.
    transitivity (map (fun b => b) (Budgets.budgets st)); [|apply map_id].
    apply map_ext. intro b. unfold f.
    destruct (String.eqb (Budgets.id b) i); cbn [negb]; [|reflexivity].
    destruct k; [congruence | |]; now rewrite Hnan.
  - intro Hall. apply Forall_map. eapply Forall_impl; [|exact Hall].
    intros b [Hl Hs]. unfold f.
    destruct (String.eqb (Budgets.id b) i); cbn [negb]; [|now split].
    destruct k; cbn [Budgets.limit Budgets.spent]; [now split | |];
      destruct (isNaN (Number value)) eqn:E; cbn [Budgets.limit Budgets.spent];
      now split.
Qed.

Lemma updateField_in_place_witness :
  Budgets.updateField (fun _ => NaN) "2" Budgets.KLimit "abc"
    (Budgets.mkState Budgets.initial_budgets (Budgets.mkNewRow "" "" ""))
  = Budgets.mkState Budgets.initial_budgets (Budgets.mkNewRow "" "" "").
Proof.
  destruct (updateField_in_place (fun _ => NaN) "2" Budgets.KLimit "abc"
              (Budgets.mkState Budgets.initial_budgets (Budgets.mkNewRow "" "" "")))
    as (_ & _ & _ & H & _).
  apply H; [discriminate | reflexivity].
Defined.





(** The two warnings of a row can disagree: spent [100.4] of a limit of
    [100] rounds to 100 percent, so the amount is marked as over while the
    bar is not. *)
Example warnings_disagree :
  Budgets.spent_over (Budgets.mk "1" "x" (of_Z 100) (lit 1004 10)) = true /\
  Budgets.bar_over (Budgets.mk "1" "x" (of_Z 100) (lit 1004 10)) = false.
Proof. split; vm_compute; reflexivity. Qed.

(** ** What a hovering render shows *)

Lemma mapM_length {A B : Type} (f : A -> result B) (l : list A) (bs : list B) :
  mapM f l = Ok bs -> length bs = length l.
Proof.
  intro E. apply mapM_Ok_inv in E.
  induction E; cbn [length]; congruence.
Qed.

(** X19.  When a render with hover index [h] returns, the tooltip lists
    exactly the rows of the legend (the two can never disagree), there is
    one marker per series and every marker sits on the vertical guide at
    [x(h)]; there is one line and one filled area per series and one label
    per point of the first series. *)
Theorem render_hover_agrees (series : list Series.t) (h : num) (v : view) :
  render series (Some h) = Ok v ->
  (exists leftPct yr, tooltip v = Some (leftPct, yr, legend v)) /\
  (exists dots,
     hover v = Some (x (N series) h, dots) /\
     length dots = length series /\
     Forall (fun d => fst d = x (N series) h) dots) /\
  length (legend v) = length series /\
  length (lines v) = length series /\
  length (areas v) = length series /\
  length (xlabels v) = N series.
Proof.
  intro E.
  assert (Hok : exists v', render series (Some h) = Ok v') by now exists v.
  apply render_Ok_iff in Hok. destruct Hok as [Hne _].
  unfold render in E.
  destruct (years_Ok series Hne) as [yrs Ey]. rewrite Ey in E. cbn [bind] in E.
  pose proof (years_length series yrs Ey) as Hlen. rewrite Hlen in E.
  cbn [legendIndex] in E.
  destruct (mapM (fun s => v0 <- value_of s h ;; Ok (x (N series) h, _)) series)
    as [dots|] eqn:Ed in E; cbn [bind] in E; [|discriminate].
  destruct (mapM (fun s => v0 <- value_of s h ;; Ok (Series.name s, v0)) series)
    as [rows|] eqn:Er in E; cbn [bind] in E; [|discriminate].
  injection E as <-. cbn [tooltip hover legend lines areas xlabels].
  split; [do 2 eexists; reflexivity|]. split; [|split; [|split; [|split]]].
  - exists dots. split; [reflexivity|]. split; [exact (mapM_length _ _ _ Ed)|].
    apply mapM_Ok_inv in Ed.
    set (xh := x (N series) h) in *. set (mx := AreaChart.max series) in *.
    clearbody xh mx. clear - Ed.
    induction Ed as [|s d l l' Hd _ IH]; constructor; [|exact IH].
    destruct (value_of s h); cbn [bind] in Hd; [|discriminate].
    now injection Hd as <-.
  - exact (mapM_length _ _ _ Er).
  - apply length_map.
  - apply length_map.
  - unfold indexed. rewrite length_map, length_combine, length_seq. lia.
Qed.

Lemma render_hover_agrees_witness :
  exists v leftPct yr,
    render (portfolio_series 2026 initial_accounts) (Some (of_nat 4)) = Ok v /\
    tooltip v = Some (leftPct, yr, legend v).
Proof.
  destruct (render_Ok_iff (portfolio_series 2026 initial_accounts)
              (Some (of_nat 4))) as [_ Hok].
  destruct Hok as [v Ev].
  - split; [discriminate|]. repeat constructor; cbn [legendIndex];
      rewrite index_of_nat; apply nth_error_Some;
      cbn [Series.points]; rewrite projectGrowth_length; unfold years; lia.
  - destruct (render_hover_agrees _ _ v Ev) as ((leftPct & yr & Ht) & _).
    exists v, leftPct, yr. split; assumption.
Defined.
